(** * Obsidian DevTools MCP bridge: a shallow embedding and its properties

    The development follows the four programs of the repository:
    - [AutoPortBridge]  auto_port_bridge.js  (port allocator, socket listener,
                        request correlator, protocol translator);
    - [Bridge]          bridge.js            (the older bridge with a fixed port);
    - [AutoService]     auto_service.js      (the process supervisor);
    - [Plugin]          main.ts              (console capture of the plugin).
    [PortSpec] words the port acquisition of the specification, for
    comparison with the allocator.  Further parts of the programs follow:
    - [Framing]           the line splitter of the 'data' listeners;
    - [AutoPortBridgeMore], [AutoServiceMore]  the cleanup handlers;
    - [PluginSocket]      main.ts (the 'onmessage' handler and its commands);
    - [PluginConnection]  main.ts (how the plugin finds and keeps its port);
    - [Service]           service.js (the older supervisor and its relay);
    - [BridgeLiveness], [BridgePorts]  bridge.js (ping sweep, createServer).
    The properties follow the definitions: [Translator], [PortAllocator],
    [Supervisor] and [ConsoleCapture], then one module of facts for each of
    the further parts.

    JavaScript is event driven and single threaded: every callback runs to
    completion, and the continuations of settled promises run before the
    next event is taken.  Each program is therefore a state record, one
    function per callback, and a [step] function that dispatches an event
    to its callback. *)

From Stdlib Require Import ZArith List String Bool Lia DecimalString.
Import ListNotations.
Open Scope Z_scope.

(** ** JavaScript values as the programs use them *)

Module JS.

(** Values produced by [JSON.parse], plus [undefined] for absent
    properties.  Numbers are the integers (identifiers, ports, limits and
    error codes are all integers in these programs). *)
#[warnings="-register-all"]
Inductive Value : Type :=
| Undefined
| Null
| Bool (b : bool)
| Num (n : Z)
| Str (s : string)
| Arr (items : list Value)
| Obj (fields : list (string * Value)).

(** ToBoolean. *)
Definition truthy (v : Value) : bool :=
  match v with
  | Undefined | Null => false
  | Bool b => b
  | Num n => negb (n =? 0)
  | Str s => negb (s =? "")%string
  | Arr _ | Obj _ => true
  end.

(** [a || b]. *)
Definition or (a b : Value) : Value := if truthy a then a else b.

Fixpoint lookup (k : string) (fields : list (string * Value)) : Value :=
  match fields with
  | [] => Undefined
  | (k', v) :: rest => if (k' =? k)%string then v else lookup k rest
  end.

(** [v.k] for the property names the programs read (id, method, params,
    name, arguments, error, result, message): [None] is the TypeError that
    reading a property of [undefined] or [null] throws. *)
Definition prop (v : Value) (k : string) : option Value :=
  match v with
  | Undefined | Null => None
  | Obj fields => Some (lookup k fields)
  | Bool _ | Num _ | Str _ | Arr _ => Some Undefined
  end.

(** [typeof v === 'object']. *)
Definition typeof_object (v : Value) : bool :=
  match v with
  | Null | Arr _ | Obj _ => true
  | _ => false
  end.

Definition is_null (v : Value) : bool :=
  match v with Null => true | _ => false end.

Definition decimal (n : Z) : string := NilZero.string_of_int (Z.to_int n).

(** ToString, as used by template literals and by [new Error(v)]. *)
Fixpoint String (v : Value) : string :=
  match v with
  | Undefined => "undefined"
  | Null => "null"
  | Bool true => "true"
  | Bool false => "false"
  | Num n => decimal n
  | Str s => s
  | Arr items =>
      String.concat ","
        (map (fun x => match x with
                       | Undefined | Null => ""%string
                       | _ => String x
                       end) items)
  | Obj _ => "[object Object]"
  end.

(** [new Error(v).message]. *)
Definition Error_message (v : Value) : string :=
  match v with
  | Undefined => ""
  | _ => String v
  end.

(** The message of the TypeError thrown by [v.k] (V8 wording). *)
Definition TypeError_message (v : Value) (k : string) : string :=
  ("Cannot read properties of " ++ String v ++ " (reading '" ++ k ++ "')")%string.

End JS.

(** ** [Map] objects keyed by numbers

    A JavaScript [Map] iterates in insertion order, and the order in which
    pending requests are rejected is the order of the replies, so the
    table is an association list. *)

Module JSMap.

Section Ops.
Context {V : Type}.

Fixpoint get (k : Z) (m : list (Z * V)) : option V :=
  match m with
  | [] => None
  | (k', v) :: rest => if k' =? k then Some v else get k rest
  end.

Definition has (k : Z) (m : list (Z * V)) : bool :=
  match get k m with Some _ => true | None => false end.

(** [m.set(k, v)]: an existing key keeps its place. *)
Fixpoint set (k : Z) (v : V) (m : list (Z * V)) : list (Z * V) :=
  match m with
  | [] => [(k, v)]
  | (k', v') :: rest =>
      if k' =? k then (k', v) :: rest else (k', v') :: set k v rest
  end.

Fixpoint delete (k : Z) (m : list (Z * V)) : list (Z * V) :=
  match m with
  | [] => []
  | (k', v') :: rest =>
      if k' =? k then delete k rest else (k', v') :: delete k rest
  end.

Definition keys (m : list (Z * V)) : list Z := map fst m.

Definition size (m : list (Z * V)) : nat := List.length m.

End Ops.

End JSMap.

(** ** auto_port_bridge.js *)

Module AutoPortBridge.

Definition DEFAULT_PORT : Z := 27125.
Definition PORT_RANGE : Z * Z := (27125, 27135).

(** *** Port allocator: [loadLastSuccessfulPort], [saveSuccessfulPort],
        [createServer] *)

(** What the 'listening' / 'error' events of a new [WebSocket.Server]
    report for one bind attempt. *)
Inductive BindResult := Listening | EADDRINUSE | OtherError.

(** The environment of the allocator: the result of the [k]-th bind
    attempt of a sweep, made on [port]. *)
Definition BindEnv := nat -> Z -> BindResult.

(** The globals the allocator reads and writes.  [portFile] is the number
    [parseInt] reads from active_port.txt; [None] stands for a file that is
    missing, unreadable or not a number; in all three cases
    [loadLastSuccessfulPort] leaves [currentPort] alone.  [server] is the
    port of the server object last constructed. *)
Record PortState := mkPortState {
  currentPort : Z;
  server : option Z;
  portFile : option Z;
  isShuttingDown : bool
}.

Definition initialPortState (file : option Z) : PortState :=
  mkPortState DEFAULT_PORT None file false.

(** What one call of [createServer] does, in order. *)
Inductive Effect :=
| TryBind (port : Z)            (* new WebSocket.Server({ port }) *)
| CloseServer (port : Z)        (* server.close() in the 'error' listener *)
| SavePort (port : Z)           (* fs.writeFileSync(PORT_FILE_PATH, port) *)
| SetupHandlers                 (* setupServerHandlers() *)
| Wait (ms : Z)                 (* await a setTimeout *)
| ScheduleCreateServer (ms : Z) (* setTimeout(() => createServer(), ms) *).

(** How the call ends.  [Suspended]: the awaited promise is neither
    resolved nor rejected, so the async function never resumes. *)
Inductive Outcome :=
| Started (port : Z)
| Exhausted
| Suspended (port : Z)
| NotStarted.

Definition loadLastSuccessfulPort (st : PortState) : PortState :=
  match portFile st with
  | Some savedPort =>
      if (fst PORT_RANGE <=? savedPort) && (savedPort <=? snd PORT_RANGE)
      then mkPortState savedPort (server st) (portFile st) (isShuttingDown st)
      else st
  | None => st
  end.

Definition saveSuccessfulPort (st : PortState) (port : Z) : PortState :=
  mkPortState (currentPort st) (server st) (Some port) (isShuttingDown st).

(** The [for] loop of [createServer]; [fuel] bounds the ports left. *)
Fixpoint scanPorts (bind : BindEnv) (fuel : nat) (attempt : nat) (port : Z)
    (st : PortState) : PortState * list Effect * Outcome :=
  match fuel with
  | O =>
      (* all ports are in use: try again after a delay *)
      (st, [ScheduleCreateServer 5000], Exhausted)
  | S fuel' =>
      let st1 := mkPortState (currentPort st) (Some port) (portFile st)
                   (isShuttingDown st) in
      match bind attempt port with
      | Listening =>
          let st2 := mkPortState port (Some port) (portFile st)
                       (isShuttingDown st) in
          (saveSuccessfulPort st2 port,
           [TryBind port; SavePort port; SetupHandlers], Started port)
      | EADDRINUSE =>
          (* the listener closes the server and settles nothing *)
          (st1, [TryBind port; CloseServer port], Suspended port)
      | OtherError =>
          (* reject(err); the catch block waits, the loop goes on *)
          let '(st', effects, outcome) :=
            scanPorts bind fuel' (S attempt) (port + 1) st1 in
          (st', TryBind port :: Wait 2000 :: effects, outcome)
      end
  end.

Definition portsLeft (port : Z) : nat :=
  Z.to_nat (snd PORT_RANGE - port + 1).

Definition createServer (bind : BindEnv) (st : PortState)
    : PortState * list Effect * Outcome :=
  if isShuttingDown st then (st, [], NotStarted)
  else
    let st1 := loadLastSuccessfulPort st in
    scanPorts bind (portsLeft (currentPort st1)) O (currentPort st1) st1.



(** *** Socket listener, request correlator, protocol translator *)

Definition Socket := nat.

Inductive ReadyState := OPEN | CLOSING | CLOSED.

(** How a promise made by [forwardToObsidian] is settled. *)
Inductive Settlement :=
| Resolved (result : JS.Value)
| Rejected (message : string).

(** An entry [{ resolve, reject, timeout }] of [pendingRequests].
    [resolve] and [reject] resume the [processRequest] call that awaits the
    promise; that call is determined by its [message], which therefore
    stands for the two functions.  [timeout] is the timer handle. *)
Record PendingRequest := mkPending {
  awaiting : JS.Value;
  timeout : Z
}.

Record State := mkState {
  obsidianConnection : option Socket;
  pendingRequests : list (Z * PendingRequest);
  nextRequestId : Z;
  clock : Z;                            (* milliseconds *)
  timers : list (Z * Z);                (* armed timers: handle, due time *)
  clients : list (Socket * ReadyState); (* sockets accepted by the server *)
  stdout : list JS.Value;               (* one JSON line per element *)
  socketOut : list (Socket * JS.Value); (* frames sent to the plugin *)
  settled : list (Z * Settlement)       (* calls of resolve / reject *)
}.

Definition initialState : State :=
  mkState None [] 1 0 [] [] [] [] [].

Definition set_obsidianConnection (c : option Socket) (s : State) : State :=
  mkState c (pendingRequests s) (nextRequestId s) (clock s) (timers s)
    (clients s) (stdout s) (socketOut s) (settled s).

Definition set_pendingRequests (p : list (Z * PendingRequest)) (s : State)
    : State :=
  mkState (obsidianConnection s) p (nextRequestId s) (clock s) (timers s)
    (clients s) (stdout s) (socketOut s) (settled s).

Definition set_nextRequestId (n : Z) (s : State) : State :=
  mkState (obsidianConnection s) (pendingRequests s) n (clock s) (timers s)
    (clients s) (stdout s) (socketOut s) (settled s).

Definition set_clock (t : Z) (s : State) : State :=
  mkState (obsidianConnection s) (pendingRequests s) (nextRequestId s) t
    (timers s) (clients s) (stdout s) (socketOut s) (settled s).

Definition set_timers (t : list (Z * Z)) (s : State) : State :=
  mkState (obsidianConnection s) (pendingRequests s) (nextRequestId s)
    (clock s) t (clients s) (stdout s) (socketOut s) (settled s).

Definition set_clients (c : list (Socket * ReadyState)) (s : State) : State :=
  mkState (obsidianConnection s) (pendingRequests s) (nextRequestId s)
    (clock s) (timers s) c (stdout s) (socketOut s) (settled s).

Definition set_stdout (o : list JS.Value) (s : State) : State :=
  mkState (obsidianConnection s) (pendingRequests s) (nextRequestId s)
    (clock s) (timers s) (clients s) o (socketOut s) (settled s).

Definition set_socketOut (o : list (Socket * JS.Value)) (s : State) : State :=
  mkState (obsidianConnection s) (pendingRequests s) (nextRequestId s)
    (clock s) (timers s) (clients s) (stdout s) o (settled s).

Definition set_settled (l : list (Z * Settlement)) (s : State) : State :=
  mkState (obsidianConnection s) (pendingRequests s) (nextRequestId s)
    (clock s) (timers s) (clients s) (stdout s) (socketOut s) l.

(** [setTimeout(callback, ms)] for the request [handle]. *)
Definition setTimeout (handle ms : Z) (s : State) : State :=
  set_timers (timers s ++ [(handle, clock s + ms)]) s.

Definition clearTimeout (handle : Z) (s : State) : State :=
  set_timers (JSMap.delete handle (timers s)) s.

(** The object handed to [JSON.stringify] by [sendMcpResponse]. *)
Definition responseFrame (id result : JS.Value) : JS.Value :=
  JS.Obj [("jsonrpc", JS.Str "2.0"); ("id", id); ("result", result)]%string.

(** The object handed to [JSON.stringify] by [sendMcpError]. *)
Definition errorFrame (id : JS.Value) (error : string) : JS.Value :=
  JS.Obj [("jsonrpc", JS.Str "2.0"); ("id", id);
          ("error", JS.Obj [("code", JS.Num (-32603));
                            ("message", JS.Str error)])]%string.

Definition sendMcpResponse (id result : JS.Value) (s : State) : State :=
  set_stdout (stdout s ++ [responseFrame id result]) s.

Definition sendMcpError (id : JS.Value) (error : string) (s : State) : State :=
  set_stdout (stdout s ++ [errorFrame id error]) s.

(** The bytes of one write: [JSON.stringify(frame) + '\n']. *)
Definition line (stringify : JS.Value -> string) (frame : JS.Value) : string :=
  (stringify frame ++ String (Ascii.ascii_of_nat 10) EmptyString)%string.


(** How a call of [processRequest] stands when control returns to the
    event loop. *)
Inductive Completion :=
| Returned (v : JS.Value)
| Thrown (message : string)
| Awaiting (id : Z).

Definition readyState (ws : Socket) (s : State) : option ReadyState :=
  match find (fun c => Nat.eqb (fst c) ws) (clients s) with
  | Some c => Some (snd c)
  | None => None
  end.

Definition setReadyState (ws : Socket) (r : ReadyState) (s : State) : State :=
  set_clients
    (map (fun c => if Nat.eqb (fst c) ws then (fst c, r) else c) (clients s)) s.

(** [ws.send(data)]: [None] when it throws.  An open socket takes the
    frame; old versions of the ws library throw on any other socket. *)
Definition send (ws : Socket) (data : JS.Value) (s : State) : option State :=
  match readyState ws s with
  | Some OPEN => Some (set_socketOut (socketOut s ++ [(ws, data)]) s)
  | _ => None
  end.

Definition reject (id : Z) (message : string) (s : State) : State :=
  set_settled (settled s ++ [(id, Rejected message)]) s.

Definition resolve (id : Z) (result : JS.Value) (s : State) : State :=
  set_settled (settled s ++ [(id, Resolved result)]) s.

(** [forwardToObsidian(params)], called from the request [message].  The
    second component is [Some m] when the promise is already rejected
    (with message [m]) as the executor returns. *)
Definition forwardToObsidian (message params : JS.Value) (s : State)
    : State * Z * option string :=
  let id := nextRequestId s in
  let s := set_nextRequestId (id + 1) s in
  let s := setTimeout id 15000 s in
  let s := set_pendingRequests
             (JSMap.set id (mkPending message id) (pendingRequests s)) s in
  let fail (error : string) (s : State) :=
    let s := clearTimeout id s in
    let s := set_pendingRequests (JSMap.delete id (pendingRequests s)) s in
    (reject id error s, id, Some error) in
  match obsidianConnection s with
  | None => fail "No connection to Obsidian plugin"%string s
  | Some ws =>
      match JS.prop params "name", JS.prop params "arguments" with
      | Some name, Some arguments =>
          let request :=
            JS.Obj [("id", JS.Num id); ("name", name);
                    ("arguments", JS.or arguments (JS.Obj []));
                    ("jsonrpc", JS.Str "2.0")]%string in
          match send ws request s with
          | Some s' => (s', id, None)
          | None => fail "WebSocket is not open"%string s
          end
      | _, _ => fail (JS.TypeError_message params "name") s
      end
  end.

Definition toolDescriptor (name description : string)
    (properties : list (string * JS.Value)) (required : list string)
    : JS.Value :=
  JS.Obj
    ([("name", JS.Str name); ("description", JS.Str description);
      ("inputSchema",
        JS.Obj ([("type", JS.Str "object");
                 ("properties", JS.Obj properties)]
                ++ match required with
                   | [] => []
                   | _ => [("required", JS.Arr (map JS.Str required))]
                   end))])%string.

Definition selectorProperty (description : string) : list (string * JS.Value) :=
  [("selector", JS.Obj [("type", JS.Str "string");
                        ("description", JS.Str description)])]%string.

(** The catalog returned for 'tools/list'. *)
Definition toolCatalog : JS.Value :=
  JS.Obj [("tools", JS.Arr [
    toolDescriptor "query_elements" "Query DOM elements using CSS selectors"
      (selectorProperty "CSS selector to find elements") ["selector"];
    toolDescriptor "get_computed_styles" "Get computed styles for an element"
      (selectorProperty "CSS selector to target element") ["selector"];
    toolDescriptor "get_console_logs" "Get recent console logs"
      [("limit", JS.Obj [("type", JS.Str "number");
                         ("description",
                          JS.Str "Maximum number of logs to retrieve");
                         ("default", JS.Num 100)])] []])]%string.

Definition initializeResult : JS.Value :=
  JS.Obj [("protocolVersion", JS.Str "2024-11-05");
          ("capabilities", JS.Obj []);
          ("serverInfo", JS.Obj [("name", JS.Str "obsidian-devtools");
                                 ("version", JS.Str "1.0.0")])]%string.

Definition methodIs (method : JS.Value) (name : string) : bool :=
  match method with
  | JS.Str s => (s =? name)%string
  | _ => false
  end.

(** [processRequest(message)] up to its first suspension. *)
Definition processRequest (message : JS.Value) (s : State)
    : State * Completion :=
  match JS.prop message "method" with
  | None => (s, Thrown (JS.TypeError_message message "method"))
  | Some method =>
      if methodIs method "initialize" then (s, Returned initializeResult)
      else if methodIs method "notifications/initialized"
      then (s, Returned (JS.Obj []))
      else if methodIs method "tools/list" then (s, Returned toolCatalog)
      else if methodIs method "tools/call" then
        match obsidianConnection s with
        | None => (s, Thrown "Not connected to Obsidian plugin")
        | Some _ =>
            match JS.prop message "params" with
            | None => (s, Thrown (JS.TypeError_message message "params"))
            | Some params =>
                match forwardToObsidian message params s with
                | (s', id, None) => (s', Awaiting id)
                | (s', _, Some error) => (s', Thrown error)
                end
            end
        end
      else if methodIs method "resources/list"
      then (s, Returned (JS.Obj [("resources", JS.Arr [])]))
      else if methodIs method "resources/templates/list"
      then (s, Returned (JS.Obj [("resourceTemplates", JS.Arr [])]))
      else (s, Thrown ("Unknown method: " ++ JS.String method))
  end%string.

(** The rest of the 'tools/call' case, run when the awaited promise is
    settled. *)
Definition processRequest_resume (message : JS.Value) (how : Settlement)
    (s : State) : State * Completion :=
  match how with
  | Resolved result =>
      match JS.prop message "id" with
      | Some id =>
          (* send using the original request ID; return null to prevent a
             double response *)
          (sendMcpResponse (JS.or id (JS.Num 0)) result s, Returned JS.Null)
      | None => (s, Thrown (JS.TypeError_message message "id"))
      end
  | Rejected error => (s, Thrown error)
  end.

(** [handleMcpRequest] after [await processRequest(message)].  When
    [message.id] itself throws, the catch block and the [.catch] of the
    caller both throw again and nothing is written. *)
Definition handleMcpRequest_finish (message : JS.Value) (c : Completion)
    (s : State) : State :=
  match c with
  | Returned response =>
      if JS.is_null response then s
      else match JS.prop message "id" with
           | Some id => sendMcpResponse id response s
           | None => s
           end
  | Thrown error =>
      match JS.prop message "id" with
      | Some id => sendMcpError id error s
      | None => s
      end
  | Awaiting _ => s
  end.

Definition handleMcpRequest (message : JS.Value) (s : State) : State :=
  let '(s', c) := processRequest message s in
  handleMcpRequest_finish message c s'.

(** A call of [resolve] or [reject] of a pending entry, followed by the
    continuation it wakes up. *)
Definition settle (id : Z) (entry : PendingRequest) (how : Settlement)
    (s : State) : State :=
  let s := match how with
           | Resolved result => resolve id result s
           | Rejected error => reject id error s
           end in
  let '(s', c) := processRequest_resume (awaiting entry) how s in
  handleMcpRequest_finish (awaiting entry) c s'.

(** The 'connection' listener of the server. *)
Definition onConnection (ws : Socket) (s : State) : State :=
  set_obsidianConnection (Some ws) s.

(** The argument of [new Error(...)] in the 'message' listener. *)
Definition responseErrorMessage (error : JS.Value) : string :=
  if JS.typeof_object error
  then match JS.prop error "message" with
       | Some m => JS.Error_message m
       | None => ""
       end
  else JS.Error_message error.

(** The 'message' listener of a socket; [data] is [None] when
    [JSON.parse] throws. *)
Definition onMessage (data : option JS.Value) (s : State) : State :=
  match data with
  | None => s
  | Some response =>
      match JS.prop response "id", JS.prop response "error",
            JS.prop response "result" with
      | Some (JS.Num id), Some error, Some result =>
          match JSMap.get id (pendingRequests s) with
          | Some entry =>
              let s := clearTimeout (timeout entry) s in
              let s := set_pendingRequests
                         (JSMap.delete id (pendingRequests s)) s in
              settle id entry
                (if JS.truthy error
                 then Rejected (responseErrorMessage error)
                 else Resolved result) s
          | None => s (* 'No pending request for response' *)
          end
      | _, _, _ => s
      end
  end.

(** The 'close' listener of a socket. *)
Definition onClose (s : State) : State :=
  let s := set_obsidianConnection None s in
  let s := fold_left
             (fun s e =>
                let s := clearTimeout (timeout (snd e)) s in
                settle (fst e) (snd e) (Rejected "WebSocket connection closed") s)
             (pendingRequests s) s in
  set_pendingRequests [] s.

(** The callback given to [setTimeout] in [forwardToObsidian]. *)
Definition onTimeout (id : Z) (s : State) : State :=
  match JSMap.get id (pendingRequests s) with
  | Some entry =>
      let s := set_pendingRequests (JSMap.delete id (pendingRequests s)) s in
      settle id entry (Rejected "Request timed out after 15 seconds") s
  | None => s
  end.

Inductive Event :=
| Stdin (message : JS.Value)                    (* a line that parses *)
| WsConnection (ws : Socket)
| WsMessage (ws : Socket) (data : option JS.Value)
| WsClose (ws : Socket)
| TimerFires (handle : Z)
| Elapse (ms : Z).

Definition isClosed (r : option ReadyState) : bool :=
  match r with Some CLOSED | None => true | _ => false end.

Definition step (s : State) (e : Event) : State :=
  match e with
  | Stdin message => handleMcpRequest message s
  | WsConnection ws =>
      match readyState ws s with
      | None => onConnection ws (set_clients (clients s ++ [(ws, OPEN)]) s)
      | Some _ => s
      end
  | WsMessage ws data =>
      if isClosed (readyState ws s) then s else onMessage data s
  | WsClose ws =>
      if isClosed (readyState ws s) then s
      else onClose (setReadyState ws CLOSED s)
  | TimerFires handle =>
      match JSMap.get handle (timers s) with
      | Some due =>
          if due <=? clock s
          then onTimeout handle (clearTimeout handle s)
          else s
      | None => s
      end
  | Elapse ms => if 0 <=? ms then set_clock (clock s + ms) s else s
  end.

Definition run (s : State) (events : list Event) : State :=
  fold_left step events s.

Definition openSockets (s : State) : list Socket :=
  map fst (filter (fun c => match snd c with OPEN => true | _ => false end)
             (clients s)).

(** [message.id], for a message that has properties. *)
Definition callerId (message : JS.Value) : JS.Value :=
  match JS.prop message "id" with
  | Some id => id
  | None => JS.Undefined
  end.


(** A parsed line is a request when it is not the literal [null]
    ([JSON.parse] never yields [undefined]). *)
Definition isRequest (message : JS.Value) : bool :=
  match message with
  | JS.Undefined | JS.Null => false
  | _ => true
  end.

Definition requestsIn (events : list Event) : nat :=
  List.length
    (filter (fun e => match e with Stdin m => isRequest m | _ => false end)
       events).

(** The line written when the promise awaited by the request [message] is
    settled. *)
Definition replyFrame (message : JS.Value) (how : Settlement) : JS.Value :=
  match how with
  | Resolved result =>
      responseFrame (JS.or (callerId message) (JS.Num 0)) result
  | Rejected error => errorFrame (callerId message) error
  end.

(** Lines written so far plus requests still pending. *)
Definition answeredOrPending (s : State) : nat :=
  (List.length (stdout s) + JSMap.size (pendingRequests s))%nat.

(** What holds of every state the bridge can reach. *)
Record Invariant (s : State) : Prop := mkInvariant {
  inv_pending_fresh :
    forall id, In id (JSMap.keys (pendingRequests s)) -> id < nextRequestId s;
  inv_settled_fresh :
    forall id, In id (map fst (settled s)) -> id < nextRequestId s;
  inv_pending_nodup : NoDup (JSMap.keys (pendingRequests s));
  inv_settled_nodup : NoDup (map fst (settled s));
  inv_disjoint :
    forall id, In id (JSMap.keys (pendingRequests s)) ->
               ~ In id (map fst (settled s));
  inv_timers : JSMap.keys (timers s) = JSMap.keys (pendingRequests s);
  inv_entries :
    forall id e, In (id, e) (pendingRequests s) ->
                 timeout e = id /\ isRequest (awaiting e) = true;
  inv_connection :
    forall ws, obsidianConnection s = Some ws -> readyState ws s = Some OPEN
}.

End AutoPortBridge.

(** ** Port acquisition as section 4.1 of the specification words it

    Written from the specification, to be compared with
    [AutoPortBridge.createServer]: the hint is tried first when present and
    in range, otherwise the scan starts at the lower bound; "address in
    use" advances; any other failure waits 2s and retries the same
    candidate once before advancing; an exhausted range schedules a sweep
    after 5s; the port is persisted after a successful bind only. *)

Module PortSpec.

Import AutoPortBridge.




End PortSpec.

(** ** bridge.js

    The listener and the translator of the older bridge.  Its forwarding
    path ([forwardToObsidian], keyed by the identifier of the caller) is
    not needed below and is not embedded: a 'tools/call' that reaches it
    ends this model's [handleMcpRequest] with [None]. *)

Module Bridge.

Definition Socket := nat.

Inductive ReadyState := OPEN | CLOSING | CLOSED.

Record PendingRequest := mkPending {
  awaiting : JS.Value;   (* the message whose processRequest awaits *)
  timeout : Z            (* timer handle *)
}.

Record State := mkState {
  obsidianConnection : option Socket;
  pendingRequests : list (JS.Value * PendingRequest);
  timers : list Z;                      (* handles of armed timers *)
  clients : list (Socket * ReadyState);
  stdout : list JS.Value
}.

Definition initialState : State := mkState None [] [] [] [].

Definition readyState (ws : Socket) (s : State) : option ReadyState :=
  match find (fun c => Nat.eqb (fst c) ws) (clients s) with
  | Some c => Some (snd c)
  | None => None
  end.

Definition setReadyState (ws : Socket) (r : ReadyState) (s : State) : State :=
  mkState (obsidianConnection s) (pendingRequests s) (timers s)
    (map (fun c => if Nat.eqb (fst c) ws then (fst c, r) else c) (clients s))
    (stdout s).

(** [ws.close()]: an open socket starts its closing handshake. *)
Definition close (ws : Socket) (s : State) : State :=
  match readyState ws s with
  | Some OPEN => setReadyState ws CLOSING s
  | _ => s
  end.

Definition clearTimeout (handle : Z) (s : State) : State :=
  mkState (obsidianConnection s) (pendingRequests s)
    (filter (fun h => negb (h =? handle)) (timers s)) (clients s) (stdout s).

(** [sendMcpResponse(id, response)] writes [response] as it is. *)
Definition sendMcpResponse (response : JS.Value) (s : State) : State :=
  mkState (obsidianConnection s) (pendingRequests s) (timers s) (clients s)
    (stdout s ++ [response]).

Definition sendMcpError (id : JS.Value) (error : string) (s : State) : State :=
  mkState (obsidianConnection s) (pendingRequests s) (timers s) (clients s)
    (stdout s ++ [AutoPortBridge.errorFrame id error]).

Definition errorResult (message : string) : JS.Value :=
  JS.Obj [("error", JS.Obj [("code", JS.Num (-32603));
                            ("message", JS.Str message)])]%string.

Inductive Completion :=
| Returned (v : JS.Value)
| Thrown (message : string)
| Forwarding (params id : JS.Value).

(** [processRequest(message)] up to [forwardToObsidian]. *)
Definition processRequest (message : JS.Value) (s : State) : Completion :=
  match JS.prop message "method" with
  | None => Thrown (JS.TypeError_message message "method")
  | Some method =>
      if AutoPortBridge.methodIs method "initialize"
      then Returned AutoPortBridge.initializeResult
      else if AutoPortBridge.methodIs method "notifications/initialized"
      then Returned (JS.Obj [])
      else if AutoPortBridge.methodIs method "tools/list"
      then Returned AutoPortBridge.toolCatalog
      else if AutoPortBridge.methodIs method "tools/call" then
        match obsidianConnection s with
        | None => Returned (errorResult "Not connected to Obsidian plugin")
        | Some _ =>
            match JS.prop message "params", JS.prop message "id" with
            | Some params, Some id => Forwarding params id
            | _, _ => Thrown (JS.TypeError_message message "params")
            end
        end
      else if AutoPortBridge.methodIs method "resources/list"
      then Returned (JS.Obj [("resources", JS.Arr [])])
      else if AutoPortBridge.methodIs method "resources/templates/list"
      then Returned (JS.Obj [("resourceTemplates", JS.Arr [])])
      else Thrown ("Unknown method: " ++ JS.String method)
  end%string.

(** [handleMcpRequest] after [await processRequest(message)]. *)
Definition handleMcpRequest_finish (message : JS.Value) (c : Completion)
    (s : State) : option State :=
  match c with
  | Returned response =>
      if JS.is_null response then Some s
      else match JS.prop message "id" with
           | Some id =>
               Some (sendMcpResponse
                       (JS.Obj [("jsonrpc", JS.Str "2.0"); ("id", id);
                                ("result", response)]%string) s)
           | None => Some s
           end
  | Thrown error =>
      match JS.prop message "id" with
      | Some id => Some (sendMcpError id error s)
      | None => Some s
      end
  | Forwarding _ _ => None
  end.

Definition handleMcpRequest (message : JS.Value) (s : State) : option State :=
  handleMcpRequest_finish message (processRequest message s) s.

(** [reject(error)] of a pending entry: the catch block of the
    'tools/call' case turns it into a result. *)
Definition rejectPending (entry : PendingRequest) (error : string) (s : State)
    : State :=
  let message := if (error =? "")%string then "Error executing command"%string
                 else error in
  match handleMcpRequest_finish (awaiting entry)
          (Returned (errorResult message)) s with
  | Some s' => s'
  | None => s
  end.

(** The 'connection' listener. *)
Definition onConnection (ws : Socket) (s : State) : State :=
  let s := match obsidianConnection s with
           | Some old => close old s   (* close any existing connection *)
           | None => s
           end in
  mkState (Some ws) (pendingRequests s) (timers s) (clients s) (stdout s).

(** The 'close' listener. *)
Definition onClose (s : State) : State :=
  let s := mkState None (pendingRequests s) (timers s) (clients s) (stdout s) in
  let s := fold_left
             (fun s e =>
                rejectPending (snd e) "WebSocket connection closed"
                  (clearTimeout (timeout (snd e)) s))
             (pendingRequests s) s in
  mkState (obsidianConnection s) [] (timers s) (clients s) (stdout s).

Inductive Event :=
| WsConnection (ws : Socket)
| WsClose (ws : Socket).

Definition step (s : State) (e : Event) : State :=
  match e with
  | WsConnection ws =>
      match readyState ws s with
      | None =>
          onConnection ws
            (mkState (obsidianConnection s) (pendingRequests s) (timers s)
               (clients s ++ [(ws, OPEN)]) (stdout s))
      | Some _ => s
      end
  | WsClose ws =>
      match readyState ws s with
      | Some OPEN | Some CLOSING => onClose (setReadyState ws CLOSED s)
      | _ => s
      end
  end.

Definition run (s : State) (events : list Event) : State :=
  fold_left step events s.

Definition openSockets (s : State) : list Socket :=
  map fst (filter (fun c => match snd c with OPEN => true | _ => false end)
             (clients s)).

End Bridge.

(** ** auto_service.js *)

Module AutoService.

Definition CHECK_INTERVAL : Z := 10000.
Definition MAX_RESTARTS : Z := 5.
Definition RESTART_COOLDOWN : Z := 60000.

Definition Pid := nat.

Inductive Signal := NoSignal | SIGTERM | SIGINT | OtherSignal.

(** The two callbacks that [startBridge] hands to [setTimeout]. *)
Inductive Timer :=
| RestartBridge   (* () => { bridgeProcess = startBridge(); }, 2 s *)
| CooldownOver    (* () => { restartCount = 0; startBridge(); }, 60 s *).

Record State := mkState {
  now : Z;                        (* Date.now() *)
  bridgeProcess : option Pid;
  restartCount : Z;
  lastRestartTime : Z;
  shutdownRequested : bool;
  timers : list (Z * Timer);      (* armed timers with their due time *)
  nextHealthCheck : Z;            (* due time of the next interval tick *)
  running : list Pid;             (* children that have not exited *)
  nextPid : Pid;
  spawned : list (Z * Pid)        (* every spawn: time and child *)
}.

Definition isProcessRunning (pid : Pid) (s : State) : bool :=
  existsb (Nat.eqb pid) (running s).

(** [startBridge()]: the new state and the returned child. *)
Definition startBridge (s : State) : State * option Pid :=
  if shutdownRequested s then (s, None)
  else if (MAX_RESTARTS <=? restartCount s)
          && (now s - lastRestartTime s <? RESTART_COOLDOWN)
  then
    (mkState (now s) (bridgeProcess s) (restartCount s) (lastRestartTime s)
       (shutdownRequested s)
       (timers s ++ [(now s + RESTART_COOLDOWN, CooldownOver)])
       (nextHealthCheck s) (running s) (nextPid s) (spawned s),
     None)
  else
    let bridge := nextPid s in
    (mkState (now s) (bridgeProcess s) (restartCount s) (lastRestartTime s)
       (shutdownRequested s) (timers s) (nextHealthCheck s)
       (running s ++ [bridge]) (S bridge) (spawned s ++ [(now s, bridge)]),
     Some bridge).

Definition set_bridgeProcess (b : option Pid) (s : State) : State :=
  mkState (now s) b (restartCount s) (lastRestartTime s) (shutdownRequested s)
    (timers s) (nextHealthCheck s) (running s) (nextPid s) (spawned s).

(** [main()] at time [t]: the first bridge is started and the health
    check interval is armed. *)
Definition main (t : Z) : State :=
  let s := mkState t None 0 0 false [] (t + CHECK_INTERVAL) [] O [] in
  let '(s', bridge) := startBridge s in
  set_bridgeProcess bridge s'.

(** The 'exit' listener of a bridge. *)
Definition onExit (signal : Signal) (s : State) : State :=
  let restart :=
    negb (shutdownRequested s)
    && match signal with SIGTERM | SIGINT => false | _ => true end in
  mkState (now s) (bridgeProcess s) (restartCount s + 1) (now s)
    (shutdownRequested s)
    (if restart then timers s ++ [(now s + 2000, RestartBridge)] else timers s)
    (nextHealthCheck s) (running s) (nextPid s) (spawned s).

Definition onTimer (timer : Timer) (s : State) : State :=
  match timer with
  | RestartBridge =>
      let '(s', bridge) := startBridge s in set_bridgeProcess bridge s'
  | CooldownOver =>
      fst (startBridge
             (mkState (now s) (bridgeProcess s) 0 (lastRestartTime s)
                (shutdownRequested s) (timers s) (nextHealthCheck s)
                (running s) (nextPid s) (spawned s)))
  end.

(** The callback of the health check interval. *)
Definition onHealthCheck (s : State) : State :=
  if shutdownRequested s then s
  else match bridgeProcess s with
       | Some pid =>
           if isProcessRunning pid s then s
           else let '(s', bridge) := startBridge s in
                set_bridgeProcess bridge s'
       | None => s
       end.

Inductive Happening :=
| ChildExit (pid : Pid) (signal : Signal)
| TimerDue (timer : Timer)
| HealthCheck.

Definition set_now (t : Z) (s : State) : State :=
  mkState t (bridgeProcess s) (restartCount s) (lastRestartTime s)
    (shutdownRequested s) (timers s) (nextHealthCheck s) (running s)
    (nextPid s) (spawned s).

Definition timerEqb (a b : Timer) : bool :=
  match a, b with
  | RestartBridge, RestartBridge | CooldownOver, CooldownOver => true
  | _, _ => false
  end.

(** Takes the first armed timer of this kind that is due at [t]. *)
Fixpoint takeDue (timer : Timer) (t : Z) (l : list (Z * Timer))
    : option (list (Z * Timer)) :=
  match l with
  | [] => None
  | (due, k) :: rest =>
      if timerEqb k timer && (due <=? t) then Some rest
      else match takeDue timer t rest with
           | Some rest' => Some ((due, k) :: rest')
           | None => None
           end
  end.

(** One event at time [t].  Time does not go back, a child exits once, a
    timer fires once and not before it is due. *)
Definition step (s : State) (e : Z * Happening) : State :=
  let '(t, what) := e in
  if t <? now s then s
  else
    let s := set_now t s in
    match what with
    | ChildExit pid signal =>
        if isProcessRunning pid s
        then onExit signal
               (mkState (now s) (bridgeProcess s) (restartCount s)
                  (lastRestartTime s) (shutdownRequested s) (timers s)
                  (nextHealthCheck s)
                  (filter (fun p => negb (Nat.eqb p pid)) (running s))
                  (nextPid s) (spawned s))
        else s
    | TimerDue timer =>
        match takeDue timer t (timers s) with
        | Some rest =>
            onTimer timer
              (mkState (now s) (bridgeProcess s) (restartCount s)
                 (lastRestartTime s) (shutdownRequested s) rest
                 (nextHealthCheck s) (running s) (nextPid s) (spawned s))
        | None => s
        end
    | HealthCheck =>
        if nextHealthCheck s <=? t
        then onHealthCheck
               (mkState (now s) (bridgeProcess s) (restartCount s)
                  (lastRestartTime s) (shutdownRequested s) (timers s)
                  (nextHealthCheck s + CHECK_INTERVAL) (running s)
                  (nextPid s) (spawned s))
        else s
    end.

Definition run (s : State) (events : list (Z * Happening)) : State :=
  fold_left step events s.

(** The children started at a time in [[from, to)]. *)
Definition spawnedWithin (from to : Z) (s : State) : list Pid :=
  map snd (filter (fun x => (from <=? fst x) && (fst x <? to)) (spawned s)).

End AutoService.

(** ** main.ts: console capture *)

Module Plugin.

Record ConsoleMessage := mkMessage {
  type : string;
  message : string;
  timestamp : string
}.

(** The body of a wrapped console method after the original is called:
    push, then keep only the last 1000 messages. *)
Definition capture (consoleMessages : list ConsoleMessage)
    (m : ConsoleMessage) : list ConsoleMessage :=
  let pushed := consoleMessages ++ [m] in
  if (1000 <? Z.of_nat (List.length pushed)) then tl pushed else pushed.

(** [array.slice(start)] for an integer [start]. *)
Definition slice {A : Type} (start : Z) (l : list A) : list A :=
  let len := Z.of_nat (List.length l) in
  let k := if start <? 0 then Z.max (len + start) 0 else Z.min start len in
  skipn (Z.to_nat k) l.

(** [getConsoleLogs(limit)]; [None] is an argument that is [undefined]. *)
Definition getConsoleLogs (consoleMessages : list ConsoleMessage)
    (limit : option Z) : list ConsoleMessage :=
  let limit := match limit with Some n => n | None => 100 end in
  slice (- limit) consoleMessages.

End Plugin.

(** ** Concrete runs used below *)

Module Scenarios.

Import AutoPortBridge.

(** A tools/call for query_elements with the identifier [id]. *)
Definition toolsCall (id : JS.Value) : JS.Value :=
  JS.Obj [("jsonrpc", JS.Str "2.0"); ("id", id);
          ("method", JS.Str "tools/call");
          ("params",
           JS.Obj [("name", JS.Str "query_elements");
                   ("arguments", JS.Obj [("selector", JS.Str "div")])])]%string.



Definition connected : list Event := [WsConnection 1%nat].



Definition twoPending : list Event :=
  [WsConnection 1%nat; Stdin (toolsCall (JS.Num 7));
   Stdin (toolsCall (JS.Str "b"))].

Definition legacyPending : Bridge.State :=
  Bridge.mkState (Some 1%nat)
    [(JS.Num 7, Bridge.mkPending (toolsCall (JS.Num 7)) 1);
     (JS.Num 8, Bridge.mkPending (toolsCall (JS.Num 8)) 2)]
    [1; 2] [(1%nat, Bridge.OPEN)] [].


Definition twoPeers : list Event := [WsConnection 1%nat; WsConnection 2%nat].

Definition twoPeersLegacy : list Bridge.Event :=
  [Bridge.WsConnection 1%nat; Bridge.WsConnection 2%nat].

Definition threePeersLegacy : list Bridge.Event :=
  [Bridge.WsConnection 1%nat; Bridge.WsConnection 2%nat;
   Bridge.WsClose 1%nat; Bridge.WsConnection 3%nat].


Definition startTime : Z := 1700000000000.

(** Three crashes, each half a second before a health check tick. *)
Definition crashesNearHealthCheck : list (Z * AutoService.Happening) :=
  [ (startTime + 9500, AutoService.ChildExit 0%nat AutoService.NoSignal);
    (startTime + 10000, AutoService.HealthCheck);
    (startTime + 11500, AutoService.TimerDue AutoService.RestartBridge);
    (startTime + 19500, AutoService.ChildExit 2%nat AutoService.NoSignal);
    (startTime + 20000, AutoService.HealthCheck);
    (startTime + 21500, AutoService.TimerDue AutoService.RestartBridge);
    (startTime + 29500, AutoService.ChildExit 4%nat AutoService.NoSignal);
    (startTime + 30000, AutoService.HealthCheck);
    (startTime + 31500, AutoService.TimerDue AutoService.RestartBridge) ].

(** Five crashes in a row with no health check tick in between. *)
Definition crashLoop : list (Z * AutoService.Happening) :=
  [ (startTime + 1000, AutoService.ChildExit 0%nat AutoService.NoSignal);
    (startTime + 3000, AutoService.TimerDue AutoService.RestartBridge);
    (startTime + 4000, AutoService.ChildExit 1%nat AutoService.NoSignal);
    (startTime + 6000, AutoService.TimerDue AutoService.RestartBridge);
    (startTime + 7000, AutoService.ChildExit 2%nat AutoService.NoSignal);
    (startTime + 9000, AutoService.TimerDue AutoService.RestartBridge);
    (startTime + 9500, AutoService.ChildExit 3%nat AutoService.NoSignal);
    (startTime + 11500, AutoService.TimerDue AutoService.RestartBridge);
    (startTime + 12000, AutoService.ChildExit 4%nat AutoService.NoSignal);
    (startTime + 14000, AutoService.TimerDue AutoService.RestartBridge) ].

Definition threeMessages : list Plugin.ConsoleMessage :=
  [Plugin.mkMessage "log" "first" "2025-01-01T00:00:00.000Z";
   Plugin.mkMessage "warn" "second" "2025-01-01T00:00:01.000Z";
   Plugin.mkMessage "error" "third" "2025-01-01T00:00:02.000Z"].

End Scenarios.

(** ** The line splitter of the 'data' listeners

    auto_port_bridge.js and bridge.js read their standard input through
    the same loop: the chunk is appended to [inputBuffer] and every
    complete line is cut off.  A chunk is the text the listener receives;
    a character of the model stands for a code unit of the string. *)

Module Framing.
Import Ascii.

Definition newline : ascii := ascii_of_nat 10.

(** [s.indexOf(c)] for a single character; [None] is -1. *)
Fixpoint indexOf (c : ascii) (s : string) : option nat :=
  match s with
  | EmptyString => None
  | String a rest =>
      if Ascii.eqb a c then Some O
      else match indexOf c rest with
           | Some i => Some (S i)
           | None => None
           end
  end.

(** [s.slice(from, to)] and [s.slice(from)] for indices within [s]. *)
Definition slice (from to : nat) (s : string) : string :=
  substring from (to - from) s.

Definition sliceFrom (from : nat) (s : string) : string :=
  substring from (String.length s - from) s.

(** The [while] loop of a 'data' listener: every complete line is cut
    off the buffer.  [fuel] bounds the iterations. *)
Fixpoint takeLines (fuel : nat) (buffer : string) : list string * string :=
  match fuel with
  | O => ([], buffer)
  | S fuel' =>
      match indexOf newline buffer with
      | None => ([], buffer)
      | Some newlineIndex =>
          let line := slice 0 newlineIndex buffer in
          let '(lines, rest) :=
            takeLines fuel' (sliceFrom (newlineIndex + 1) buffer) in
          (line :: lines, rest)
      end
  end.

(** [inputBuffer += chunk] followed by the loop: the lines handed on, in
    order, and the new buffer. *)
Definition onData (inputBuffer chunk : string) : list string * string :=
  let buffer := (inputBuffer ++ chunk)%string in
  takeLines (S (String.length buffer)) buffer.

(** The text that [lines] and the buffer [rest] came from. *)
Fixpoint unsplit (lines : list string) (rest : string) : string :=
  match lines with
  | [] => rest
  | l :: ls => (l ++ String newline (unsplit ls rest))%string
  end.

Definition noNewline (s : string) : Prop := indexOf newline s = None.

End Framing.

(** ** auto_port_bridge.js: local methods, bind attempts, [cleanup] *)

Module AutoPortBridgeMore.
Import AutoPortBridge.


(** The ports of the bind attempts among [effects], in order. *)
Fixpoint portsTried (effects : list Effect) : list Z :=
  match effects with
  | [] => []
  | TryBind port :: rest => port :: portsTried rest
  | _ :: rest => portsTried rest
  end.

(** [n] consecutive ports from [port] on. *)
Fixpoint consecutive (port : Z) (n : nat) : list Z :=
  match n with
  | O => []
  | S n' => port :: consecutive (port + 1) n'
  end.

(** [cleanup()] on the state of the correlator: the loop that clears the
    timer of every pending request.  ([isShuttingDown] and [server.close]
    belong to the allocator, whose [createServer] reads the flag.) *)
Definition cleanup (s : State) : State :=
  fold_left (fun s e => clearTimeout (timeout (snd e)) s) (pendingRequests s) s.

End AutoPortBridgeMore.

(** ** auto_service.js: [cleanup] *)

Module AutoServiceMore.
Import AutoService.

(** [cleanup()]: shutdown is requested and the bridge, if any, is sent
    SIGTERM (the second component). *)
Definition cleanup (s : State) : State * option Pid :=
  (mkState (now s) (bridgeProcess s) (restartCount s) (lastRestartTime s)
     true (timers s) (nextHealthCheck s) (running s) (nextPid s) (spawned s),
   bridgeProcess s).

End AutoServiceMore.

(** ** main.ts: the socket side of the plugin

    The 'onmessage' handler with [executeCommand] and the three commands.
    The page ([document], [getComputedStyle]), [JSON.stringify] and the
    clock are parameters.  Every [log] call is kept: the plugin logs
    through the console it has wrapped, so its own lines enter the buffer
    it serves.  The handlers await only promises that are already
    settled, so one handler runs to its end before the next event. *)

Module PluginSocket.

Local Open Scope string_scope.

(** What the page answers to the two DOM commands. *)
Inductive QueryOutcome :=
| Elements (results : list JS.Value)   (* one descriptor per element *)
| QueryError (message : string).       (* querySelectorAll throws *)

Inductive StyleOutcome :=
| SelectorError (message : string)     (* querySelector throws *)
| NotFound
| Styles (styles : JS.Value)
| StyleError (message : string).       (* getComputedStyle throws *)

Record Dom := mkDom {
  querySelectorAll : JS.Value -> QueryOutcome;
  computedStyles : JS.Value -> StyleOutcome
}.

Record State := mkState {
  consoleMessages : list Plugin.ConsoleMessage;
  dateReads : nat;        (* how often the clock was read *)
  workspace : bool        (* app.workspace is there *)
}.

Inductive Completion :=
| Returned (v : JS.Value)
| Thrown (message : string).

Definition messageValue (m : Plugin.ConsoleMessage) : JS.Value :=
  JS.Obj [("type", JS.Str (Plugin.type m));
          ("message", JS.Str (Plugin.message m));
          ("timestamp", JS.Str (Plugin.timestamp m))]%string.

(** [JSON.stringify] of an Error object. *)
Definition errorText : string := "{}".


Section Environment.

Variable stringify : JS.Value -> string.   (* JSON.stringify *)
Variable timestamp : nat -> string.        (* the k-th toISOString() *)

(** One argument of a wrapped console method. *)
Definition formatArg (arg : JS.Value) : string :=
  if JS.typeof_object arg then stringify arg else JS.String arg.

(** [log(...args)]: console.log is wrapped by setupConsoleCapture, so
    every log line of the plugin lands in the buffer. *)
Definition log (args : list string) (st : State) : State :=
  mkState
    (Plugin.capture (consoleMessages st)
       (Plugin.mkMessage "log" (String.concat " " ("[DevTools MCP]" :: args))
          (timestamp (dateReads st))))
    (S (dateReads st)) (workspace st).

Definition queryElements (dom : Dom) (selector : JS.Value) (st : State)
    : State * Completion :=
  let st := log ["Querying elements:"; formatArg selector] st in
  match querySelectorAll dom selector with
  | Elements results =>
      let st := match results with
                | [] => log ["No elements found for selector:";
                             formatArg selector] st
                | _ => st
                end in
      let st := log ["Query results:"; formatArg (JS.Arr results)] st in
      (st, Returned (JS.Arr results))
  | QueryError message =>
      (log ["Query error:"; errorText] st, Thrown message)
  end%string.

Definition getComputedStyles (dom : Dom) (selector : JS.Value) (st : State)
    : State * Completion :=
  let st := log ["Getting styles for:"; formatArg selector] st in
  match computedStyles dom selector with
  | SelectorError message => (st, Thrown message)
  | NotFound =>
      (log ["Element not found:"; formatArg selector] st, Returned JS.Null)
  | Styles styles =>
      (log ["Style results:"; formatArg styles] st, Returned styles)
  | StyleError message =>
      (log ["Style error:"; errorText] st, Thrown message)
  end%string.

(** The number [-limit] is computed from: [None] for the kinds of value
    whose conversion to a number is not embedded (strings, arrays,
    objects). *)
Definition limitNumber (limit : JS.Value) : option Z :=
  match limit with
  | JS.Undefined => Some 100           (* the default parameter *)
  | JS.Num n => Some n
  | JS.Null => Some 0
  | JS.Bool b => Some (if b then 1 else 0)
  | _ => None
  end.

Definition getConsoleLogs (limit : JS.Value) (st : State)
    : option (State * Completion) :=
  let limit := match limit with JS.Undefined => JS.Num 100 | _ => limit end in
  match limitNumber limit with
  | None => None
  | Some n =>
      let st := log ["Getting console logs, limit:"; formatArg limit] st in
      let logs := Plugin.getConsoleLogs (consoleMessages st) (Some n) in
      let result := JS.Arr (map messageValue logs) in
      Some (log ["Console logs:"; formatArg result] st, Returned result)
  end%string.

Definition executeCommand (dom : Dom) (message : JS.Value) (st : State)
    : option (State * Completion) :=
  let st := log ["Executing command:"; formatArg message] st in
  if negb (workspace st) then Some (st, Thrown "Workspace not available")
  else
    match JS.prop message "name" with
    | None => Some (st, Thrown (JS.TypeError_message message "name"))
    | Some name =>
        let argument (k : string) : JS.Value + string :=
          match JS.prop message "arguments" with
          | Some arguments =>
              match JS.prop arguments k with
              | Some v => inl v
              | None => inr (JS.TypeError_message arguments k)
              end
          | None => inr (JS.TypeError_message message "arguments")
          end in
        if AutoPortBridge.methodIs name "query_elements" then
          match argument "selector" with
          | inl selector => Some (queryElements dom selector st)
          | inr error => Some (st, Thrown error)
          end
        else if AutoPortBridge.methodIs name "get_computed_styles" then
          match argument "selector" with
          | inl selector => Some (getComputedStyles dom selector st)
          | inr error => Some (st, Thrown error)
          end
        else if AutoPortBridge.methodIs name "get_console_logs" then
          match argument "limit" with
          | inl limit => getConsoleLogs limit st
          | inr error => Some (st, Thrown error)
          end
        else Some (st, Thrown ("Unknown command: " ++ JS.String name))
    end%string.

Definition parseErrorFrame : JS.Value :=
  JS.Obj [("jsonrpc", JS.Str "2.0"); ("id", JS.Num (-1));
          ("error", JS.Obj [("code", JS.Num (-32700));
                            ("message", JS.Str "Invalid message format")])]%string.

(** The 'onmessage' handler: the new state and the frame sent back.
    [data] is [None] when [JSON.parse] throws. *)
Definition onmessage (dom : Dom) (data : option JS.Value) (st : State)
    : option (State * JS.Value) :=
  match data with
  | None => Some (log ["Message parsing error:"; errorText] st, parseErrorFrame)
  | Some message =>
      let st := log ["Received message:"; formatArg message] st in
      match executeCommand dom message st with
      | None => None
      | Some (st, Returned result) =>
          let st := log ["Command result:"; formatArg result] st in
          match JS.prop message "id" with
          | Some id =>
              let response :=
                JS.Obj [("jsonrpc", JS.Str "2.0"); ("id", id);
                        ("result", result)] in
              Some (log ["Sending response:"; formatArg response] st, response)
          | None =>
              Some (log ["Message parsing error:"; errorText] st,
                    parseErrorFrame)
          end
      | Some (st, Thrown error) =>
          let st := log ["Command error:"; errorText] st in
          match JS.prop message "id" with
          | Some id =>
              Some (st,
                    JS.Obj [("jsonrpc", JS.Str "2.0"); ("id", id);
                            ("error",
                             JS.Obj [("code", JS.Num (-32603));
                                     ("message",
                                      JS.Str (if (error =? "")%string
                                              then "Unknown command error"
                                              else error))])])
          | None =>
              Some (log ["Message parsing error:"; errorText] st,
                    parseErrorFrame)
          end
      end
  end%string.

End Environment.

End PluginSocket.

(** ** main.ts: how the plugin finds the bridge

    The fields [connectToServer] and the socket listeners work on.  Log
    lines and the status bar are left out; [localStorage] is a cell that
    only the plugin writes; delays are kept as the exponent they are
    computed from. *)

Module PluginConnection.

(** [WS_PORTS]: 27125 .. 27135. *)
Definition WS_PORTS : list Z := map (fun i => 27125 + Z.of_nat i) (seq 0 11).

(** [WS_PORTS.indexOf(port)]; -1 when absent. *)
Fixpoint indexOfPort (port : Z) (ports : list Z) : Z :=
  match ports with
  | [] => -1
  | p :: rest =>
      if p =? port then 0
      else let i := indexOfPort port rest in if i <? 0 then -1 else i + 1
  end.

(** [WS_PORTS[index]]; [None] is [undefined]. *)
Definition portAt (index : Z) : option Z :=
  if index <? 0 then None else nth_error WS_PORTS (Z.to_nat index).

Inductive SocketState := CONNECTING | OPEN | CLOSED.

(** The callbacks handed to [setTimeout], with the numbers the delay
    [Math.min(base * Math.pow(growth, exponent), cap)] is computed from. *)
Inductive Reconnect :=
| AfterClose (exponent : Z)     (* base 50, growth 1.1, cap 1000 *)
| AfterFailure (exponent : Z).  (* base 100, growth 1.2, cap 2000 *)

Record State := mkState {
  currentPortIndex : Z;
  lastActivePort : option (option Z);
                            (* None: null; Some None: undefined *)
  attemptCount : Z;
  reconnecting : bool;
  savedPort : option Z;     (* parseInt of localStorage['devtools-mcp-port'];
                               None: absent, empty or not a number *)
  sockets : list (option Z * SocketState);
                            (* every [new WebSocket], oldest first, with
                               the port in its URL ([None]: undefined) *)
  reconnectTimeout : option Reconnect   (* the armed timer, if any *)
}.

Definition initialState (saved : option Z) : State :=
  mkState 0 None 0 false saved [] None.

(** [connectToServer()]; [throws] tells whether [new WebSocket] throws. *)
Definition connectToServer (throws : bool) (st : State) : State :=
  if reconnecting st then st
  else
    let index :=
      match lastActivePort st with
      | None =>
          match savedPort st with
          | Some port =>
              let index := indexOfPort port WS_PORTS in
              if 0 <=? index then index else currentPortIndex st
          | None => currentPortIndex st
          end
      | Some _ => currentPortIndex st
      end in
    if throws then
      mkState (Z.rem (index + 1) (Z.of_nat (List.length WS_PORTS)))
        (lastActivePort st)
        (if 10 <? attemptCount st then 0 else attemptCount st)
        false (savedPort st) (sockets st)
        (Some (AfterFailure (attemptCount st)))
    else
      mkState index (lastActivePort st) (attemptCount st) true (savedPort st)
        (sockets st ++ [(portAt index, CONNECTING)]) (reconnectTimeout st).

Definition setSocket (id : nat) (x : option Z * SocketState)
    (l : list (option Z * SocketState)) : list (option Z * SocketState) :=
  firstn id l ++ x :: skipn (S id) l.

(** The 'onopen' listener of the socket [id]; [port.toString()] throws
    when the port is undefined, and nothing is saved then. *)
Definition onopen (id : nat) (st : State) : State :=
  match nth_error (sockets st) id with
  | Some (port, CONNECTING) =>
      mkState (currentPortIndex st) (Some port) 0 false
        (match port with Some _ => port | None => savedPort st end)
        (setSocket id (port, OPEN) (sockets st)) (reconnectTimeout st)
  | _ => st
  end.

(** [WS_PORTS.indexOf(last)] for a [last] that may be undefined. *)
Definition indexOfLast (last : option Z) : Z :=
  match last with
  | Some port => indexOfPort port WS_PORTS
  | None => -1
  end.

(** The 'onclose' listener of the socket [id]. *)
Definition onclose (id : nat) (st : State) : State :=
  match nth_error (sockets st) id with
  | Some (port, CONNECTING) | Some (port, OPEN) =>
      let index :=
        match lastActivePort st with
        | Some last => indexOfLast last
        | None => currentPortIndex st
        end in
      let count := attemptCount st + 1 in
      mkState index (lastActivePort st) (if 10 <? count then 0 else count)
        (reconnecting st) (savedPort st)
        (setSocket id (port, CLOSED) (sockets st))
        (Some (AfterClose (attemptCount st)))
  | _ => st
  end.

(** The callback of the armed timer. *)
Definition onTimer (throws : bool) (st : State) : State :=
  match reconnectTimeout st with
  | Some (AfterClose _) =>
      connectToServer throws
        (mkState (currentPortIndex st) (lastActivePort st) (attemptCount st)
           false (savedPort st) (sockets st) None)
  | Some (AfterFailure _) =>
      connectToServer throws
        (mkState (currentPortIndex st) (lastActivePort st) (attemptCount st)
           (reconnecting st) (savedPort st) (sockets st) None)
  | None => st
  end.

Inductive Event :=
| Load (throws : bool)          (* onload calls connectToServer *)
| Opened (id : nat)
| Closed (id : nat)
| TimerFires (throws : bool).

Definition step (st : State) (e : Event) : State :=
  match e with
  | Load throws => connectToServer throws st
  | Opened id => onopen id st
  | Closed id => onclose id st
  | TimerFires throws => onTimer throws st
  end.

Definition run (st : State) (events : list Event) : State :=
  fold_left step events st.

Definition neverThrows (events : list Event) : Prop :=
  Forall (fun e => match e with
                   | Load throws | TimerFires throws => throws = false
                   | _ => True
                   end) events.

(** The port a fresh plugin turns to: the saved one when it is one of
    [WS_PORTS], else the first. *)
Definition homePort (saved : option Z) : Z :=
  match saved with
  | Some port => if 0 <=? indexOfPort port WS_PORTS then port else 27125
  | None => 27125
  end.

Definition validPort (port : Z) : Prop := 27125 <= port <= 27135.

(** The index [connectToServer] arrives at before it opens a socket. *)
Definition nextIndex (st : State) : Z :=
  match lastActivePort st with
  | None =>
      match savedPort st with
      | Some port =>
          let index := indexOfPort port WS_PORTS in
          if 0 <=? index then index else currentPortIndex st
      | None => currentPortIndex st
      end
  | Some _ => currentPortIndex st
  end.

Definition timerExponent (r : Reconnect) : Z :=
  match r with AfterClose e | AfterFailure e => e end.

(** Indices, counters and ports stay within their bounds. *)
Record Bounded (st : State) : Prop := mkBounded {
  bounded_index : 0 <= currentPortIndex st <= 10;
  bounded_count : 0 <= attemptCount st <= 10;
  bounded_last :
    forall last, lastActivePort st = Some last ->
      exists port, last = Some port /\ validPort port;
  bounded_sockets :
    Forall (fun x => exists port, fst x = Some port /\ validPort port)
      (sockets st);
  bounded_timer :
    forall r, reconnectTimeout st = Some r -> 0 <= timerExponent r <= 10
}.

(** The plugin is set on the port [home]. *)
Record Settled (home : Z) (st : State) : Prop := mkSettled {
  settled_next : portAt (nextIndex st) = Some home;
  settled_index : sockets st <> [] -> portAt (currentPortIndex st) = Some home;
  settled_last : forall last, lastActivePort st = Some last -> last = Some home;
  settled_sockets : Forall (fun x => fst x = Some home) (sockets st)
}.

(** Two refused connections, then one that opens and is closed later. *)
Definition refusedTwice : list Event :=
  [Load false; Closed 0; TimerFires false; Closed 1; TimerFires false;
   Opened 2; Closed 2; TimerFires false].

End PluginConnection.

(** ** service.js

    The older supervisor: it starts bridge.js, relays the lines of the
    bridge to its own standard output after checking them, relays the
    lines of its standard input to the bridge, and starts a new bridge one
    second after a bridge has exited.  [JSON.parse] is a parameter; log
    lines are left out; timers are kept without their due time; a write
    to a stream returns, and the callback of a write to the standard
    output runs later, in the order of the writes. *)

Module Service.
Import Ascii.
Import Framing.

Definition Pid := Z.

Inductive Signal := NoSignal | SIGTERM | SIGINT | OtherSignal.

Record State := mkState {
  bridgeProcess : Pid;             (* let bridgeProcess = startBridge() *)
  responsesSent : list JS.Value;   (* the Set of identifiers *)
  bridgeOutputBuffer : list (Pid * string);
                                   (* one buffer per bridge started *)
  mcpInputBuffer : list (Pid * string);
                                   (* one buffer per 'data' listener of
                                      process.stdin, in the order of
                                      registration, with its bridge *)
  stdout : list string;            (* lines written, without the newline *)
  unacknowledged : list JS.Value;  (* identifiers of the writes whose
                                      callback has not run, oldest first *)
  bridgeStdin : list (Pid * string);
                                   (* lines written to bridge.stdin *)
  running : list Pid;              (* bridges that have not exited *)
  timers : nat;                    (* armed setTimeout(startBridge, 1000) *)
  nextPid : Pid
}.

(** [k in v] for an object or array [v] that came out of [JSON.parse]. *)
Definition hasKey (k : string) (v : JS.Value) : bool :=
  match v with
  | JS.Obj fields => existsb (fun f => (fst f =? k)%string) fields
  | _ => false
  end.

(** SameValueZero, the equality of [Set.prototype.has]: objects and arrays
    that were parsed separately are never the same. *)
Definition sameValueZero (a b : JS.Value) : bool :=
  match a, b with
  | JS.Undefined, JS.Undefined | JS.Null, JS.Null => true
  | JS.Bool x, JS.Bool y => Bool.eqb x y
  | JS.Num x, JS.Num y => x =? y
  | JS.Str x, JS.Str y => (x =? y)%string
  | _, _ => false
  end.

Definition setHas (set : list JS.Value) (v : JS.Value) : bool :=
  existsb (fun x => sameValueZero x v) set.

Definition setAdd (set : list JS.Value) (v : JS.Value) : list JS.Value :=
  if setHas set v then set else set ++ [v].

(** [parsed.k !== '2.0'] is false exactly for the string "2.0". *)
Definition isVersion2 (v : JS.Value) : bool :=
  match v with
  | JS.Str s => (s =? "2.0")%string
  | _ => false
  end.

(** The checks of the 'data' listener of [bridge.stdout] on a parsed
    line: [true] when the listener goes on to write the line. *)
Definition validResponse (responsesSent : list JS.Value) (parsed : JS.Value)
    : bool :=
  if negb (JS.typeof_object parsed) || JS.is_null parsed then false
  else if negb (match JS.prop parsed "jsonrpc" with
                | Some v => isVersion2 v
                | None => false
                end) then false
  else if negb (hasKey "id" parsed) then false
  else if negb (hasKey "result" parsed) && negb (hasKey "error" parsed)
  then false
  else negb (setHas responsesSent
               (match JS.prop parsed "id" with
                | Some id => id
                | None => JS.Undefined
                end)).

Definition responseId (parsed : JS.Value) : JS.Value :=
  match JS.prop parsed "id" with
  | Some id => id
  | None => JS.Undefined
  end.

Section Parser.

Variable parse : string -> option JS.Value.   (* JSON.parse; None: it throws *)

(** The [while] loop of the 'data' listener of [bridge.stdout]: the lines
    written, the identifiers handed to the write callbacks, and the buffer
    left.  A line that does not parse is skipped (the exception is caught
    inside the loop); a line that parses and fails a check ends the
    listener ([return]), whatever is left in the buffer. *)
Fixpoint relayResponses (fuel : nat) (responsesSent : list JS.Value)
    (buffer : string) : list string * list JS.Value * string :=
  match fuel with
  | O => ([], [], buffer)
  | S fuel' =>
      match indexOf newline buffer with
      | None => ([], [], buffer)
      | Some newlineIndex =>
          let response := slice 0 newlineIndex buffer in
          let buffer := sliceFrom (newlineIndex + 1) buffer in
          match parse response with
          | None => relayResponses fuel' responsesSent buffer
          | Some parsed =>
              if validResponse responsesSent parsed then
                let '(lines, ids, rest) :=
                  relayResponses fuel' responsesSent buffer in
                (response :: lines, responseId parsed :: ids, rest)
              else ([], [], buffer)
          end
      end
  end.

(** The checks of the 'data' listener of [process.stdin]: [None] when
    reading a property throws (caught inside the loop). *)
Definition validRequest (parsed : JS.Value) : option bool :=
  match JS.prop parsed "jsonrpc", JS.prop parsed "method" with
  | Some jsonrpc, Some method => Some (JS.truthy jsonrpc && JS.truthy method)
  | _, _ => None
  end.

(** The [while] loop of one 'data' listener of [process.stdin]. *)
Fixpoint relayRequests (fuel : nat) (buffer : string)
    : list string * string :=
  match fuel with
  | O => ([], buffer)
  | S fuel' =>
      match indexOf newline buffer with
      | None => ([], buffer)
      | Some newlineIndex =>
          let request := slice 0 newlineIndex buffer in
          let buffer := sliceFrom (newlineIndex + 1) buffer in
          match parse request with
          | None => relayRequests fuel' buffer
          | Some parsed =>
              match validRequest parsed with
              | None => relayRequests fuel' buffer
              | Some false => ([], buffer)
              | Some true =>
                  let '(lines, rest) := relayRequests fuel' buffer in
                  (request :: lines, rest)
              end
          end
      end
  end.

(** [startBridge()]: a bridge is spawned and the listeners with their
    buffers are registered; the child is returned. *)
Definition startBridge (s : State) : State * Pid :=
  let bridge := nextPid s in
  (mkState (bridgeProcess s) (responsesSent s)
     (bridgeOutputBuffer s ++ [(bridge, ""%string)])
     (mcpInputBuffer s ++ [(bridge, ""%string)])
     (stdout s) (unacknowledged s) (bridgeStdin s)
     (running s ++ [bridge]) (timers s) (bridge + 1),
   bridge).

(** The start of the program: [let bridgeProcess = startBridge()]. *)
Definition main : State :=
  let '(s, bridge) :=
    startBridge (mkState 0 [] [] [] [] [] [] [] O 0) in
  mkState bridge (responsesSent s) (bridgeOutputBuffer s) (mcpInputBuffer s)
    (stdout s) (unacknowledged s) (bridgeStdin s) (running s) (timers s)
    (nextPid s).

(** The 'data' listener of the standard output of [bridge]. *)
Definition onBridgeData (bridge : Pid) (data : string) (s : State) : State :=
  match JSMap.get bridge (bridgeOutputBuffer s) with
  | None => s
  | Some buffer =>
      let buffer := (buffer ++ data)%string in
      let '(lines, ids, rest) :=
        relayResponses (S (String.length buffer)) (responsesSent s) buffer in
      mkState (bridgeProcess s) (responsesSent s)
        (JSMap.set bridge rest (bridgeOutputBuffer s)) (mcpInputBuffer s)
        (stdout s ++ lines) (unacknowledged s ++ ids) (bridgeStdin s)
        (running s) (timers s) (nextPid s)
  end.

(** The callback of the oldest write that has not been acknowledged. *)
Definition onWritten (err : bool) (s : State) : State :=
  match unacknowledged s with
  | [] => s
  | responseId :: rest =>
      mkState (bridgeProcess s)
        (if err then responsesSent s else setAdd (responsesSent s) responseId)
        (bridgeOutputBuffer s) (mcpInputBuffer s) (stdout s) rest
        (bridgeStdin s) (running s) (timers s) (nextPid s)
  end.

(** One 'data' listener of [process.stdin], the one registered for
    [bridge], whose buffer is [buffer]. *)
Definition listen (data : string) (listener : Pid * string)
    : (Pid * string) * list (Pid * string) :=
  let '(bridge, buffer) := listener in
  let buffer := (buffer ++ data)%string in
  let '(lines, rest) := relayRequests (S (String.length buffer)) buffer in
  ((bridge, rest), map (fun line => (bridge, line)) lines).

(** A chunk on [process.stdin]: every listener registered so far runs,
    in the order of registration. *)
Definition onStdinData (data : string) (s : State) : State :=
  let results := map (listen data) (mcpInputBuffer s) in
  mkState (bridgeProcess s) (responsesSent s) (bridgeOutputBuffer s)
    (map fst results) (stdout s) (unacknowledged s)
    (bridgeStdin s ++ List.concat (map snd results))
    (running s) (timers s) (nextPid s).

(** The 'exit' listener of a bridge. *)
Definition onExit (signal : Signal) (s : State) : State :=
  match signal with
  | SIGTERM | SIGINT => s
  | _ =>
      mkState (bridgeProcess s) (responsesSent s) (bridgeOutputBuffer s)
        (mcpInputBuffer s) (stdout s) (unacknowledged s) (bridgeStdin s)
        (running s) (S (timers s)) (nextPid s)
  end.

(** Every bridge started so far, oldest first. *)
Definition started (s : State) : list Pid :=
  map Z.of_nat (seq 0 (Z.to_nat (nextPid s))).

(** [cleanup()]: the process that is sent SIGTERM. *)
Definition cleanup (s : State) : Pid := bridgeProcess s.

Inductive Event :=
| BridgeData (bridge : Pid) (data : string)
| StdinData (data : string)
| Written (err : bool)
| BridgeExit (bridge : Pid) (signal : Signal)
| TimerFires.

Definition isRunning (bridge : Pid) (s : State) : bool :=
  existsb (Z.eqb bridge) (running s).

Definition step (s : State) (e : Event) : State :=
  match e with
  | BridgeData bridge data => onBridgeData bridge data s
  | StdinData data => onStdinData data s
  | Written err => onWritten err s
  | BridgeExit bridge signal =>
      if isRunning bridge s
      then onExit signal
             (mkState (bridgeProcess s) (responsesSent s)
                (bridgeOutputBuffer s) (mcpInputBuffer s) (stdout s)
                (unacknowledged s) (bridgeStdin s)
                (filter (fun p => negb (p =? bridge)) (running s))
                (timers s) (nextPid s))
      else s
  | TimerFires =>
      match timers s with
      | O => s
      | S n =>
          (* the value startBridge returns is dropped *)
          fst (startBridge
                 (mkState (bridgeProcess s) (responsesSent s)
                    (bridgeOutputBuffer s) (mcpInputBuffer s) (stdout s)
                    (unacknowledged s) (bridgeStdin s) (running s) n
                    (nextPid s)))
      end
  end.

Definition run (s : State) (events : list Event) : State :=
  fold_left step events s.

(** A line the relay of responses lets through, given the identifiers
    already acknowledged. *)
Definition accepted (responsesSent : list JS.Value) (line : string) : bool :=
  match parse line with
  | Some parsed => validResponse responsesSent parsed
  | None => false
  end.

Definition parses (line : string) : bool :=
  match parse line with Some _ => true | None => false end.

(** The identifier of a line that parses. *)
Definition idOf (line : string) : JS.Value :=
  match parse line with
  | Some parsed => responseId parsed
  | None => JS.Undefined
  end.

(** A line that is a JSON-RPC 2.0 response: an object whose "jsonrpc" is
    "2.0", with an "id" and with a "result" or an "error". *)
Definition wellFormed (line : string) : Prop :=
  exists fields,
    parse line = Some (JS.Obj fields) /\
    JS.lookup "jsonrpc" fields = JS.Str "2.0" /\
    hasKey "id" (JS.Obj fields) = true /\
    (hasKey "result" (JS.Obj fields) = true \/
     hasKey "error" (JS.Obj fields) = true).

(** A line that is let through to the bridge: it parses to a value whose
    "jsonrpc" and "method" are truthy. *)
Definition isRequestLine (line : string) : Prop :=
  exists parsed, parse line = Some parsed /\ validRequest parsed = Some true.

End Parser.

End Service.

Module ServiceScenarios.
Import Service.

(** A parser for four lines; every other line does not parse. *)
Definition parseSample (line : string) : option JS.Value :=
  if (line =? "r1")%string then
    Some (JS.Obj [("jsonrpc", JS.Str "2.0"); ("id", JS.Num 1);
                  ("result", JS.Obj [])]%string)
  else if (line =? "r2")%string then
    Some (JS.Obj [("jsonrpc", JS.Str "2.0"); ("id", JS.Num 2);
                  ("error", JS.Obj [])]%string)
  else if (line =? "note")%string then
    Some (JS.Obj [("level", JS.Str "info")]%string)
  else if (line =? "call")%string then
    Some (JS.Obj [("jsonrpc", JS.Str "2.0"); ("id", JS.Num 3);
                  ("method", JS.Str "tools/list")]%string)
  else None.

Definition lf : string := String Framing.newline EmptyString.

(** The first bridge crashes and a second one is started. *)
Definition restarted : list Event := [BridgeExit 0 NoSignal; TimerFires].

End ServiceScenarios.

(** ** bridge.js: the liveness sweep

    The interval that pings the clients of the server every five seconds,
    with the 'connection' and 'pong' listeners that set [isAlive]. *)

Module BridgeLiveness.

Definition Socket := nat.

Record State := mkState {
  clients : list (Socket * bool);  (* server.clients, each with ws.isAlive *)
  pings : list Socket;             (* calls of client.ping(), in order *)
  terminated : list Socket         (* calls of client.terminate(), in order *)
}.

Definition initialState : State := mkState [] [] [].

Definition isClient (ws : Socket) (s : State) : bool :=
  existsb (fun c => Nat.eqb (fst c) ws) (clients s).

(** The 'connection' listener: [ws.isAlive = true]. *)
Definition onConnection (ws : Socket) (s : State) : State :=
  mkState (clients s ++ [(ws, true)]) (pings s) (terminated s).

(** The 'pong' listener of [ws]. *)
Definition onPong (ws : Socket) (s : State) : State :=
  mkState
    (map (fun c => if Nat.eqb (fst c) ws then (fst c, true) else c) (clients s))
    (pings s) (terminated s).

(** The callback of the interval: a client whose [isAlive] is false is
    terminated; every other client is marked and pinged. *)
Definition sweep (s : State) : State :=
  mkState (map (fun c => (fst c, false)) (clients s))
    (pings s ++ map fst (filter (fun c => snd c) (clients s)))
    (terminated s ++ map fst (filter (fun c => negb (snd c)) (clients s))).

Inductive Event :=
| WsConnection (ws : Socket)
| WsPong (ws : Socket)
| WsClose (ws : Socket)      (* the socket leaves server.clients *)
| Sweep.

Definition step (s : State) (e : Event) : State :=
  match e with
  | WsConnection ws => if isClient ws s then s else onConnection ws s
  | WsPong ws => onPong ws s
  | WsClose ws =>
      mkState (filter (fun c => negb (Nat.eqb (fst c) ws)) (clients s))
        (pings s) (terminated s)
  | Sweep => sweep s
  end.

Definition run (s : State) (events : list Event) : State :=
  fold_left step events s.

(** No sign of life of [ws], and no close. *)
Definition silent (ws : Socket) (e : Event) : bool :=
  match e with
  | WsPong ws' | WsClose ws' => negb (Nat.eqb ws' ws)
  | _ => true
  end.

Definition isSweep (e : Event) : bool :=
  match e with Sweep => true | _ => false end.

(** A client connects, is pinged, and answers once. *)
Definition answersOnce : list Event := [WsConnection 1%nat; Sweep; WsPong 1%nat].

End BridgeLiveness.

(** ** bridge.js: [createServer]

    [WS_PORT] is a parameter; what [new WebSocket.Server] does is given
    with every call. *)

Module BridgePorts.

Definition MAX_PORT_ATTEMPTS : Z := 10.

Inductive Construction :=
| Constructed          (* the constructor returns *)
| ThrowsAddressInUse   (* it throws an error whose code is 'EADDRINUSE' *)
| ThrowsOther.         (* it throws another error *)

Record State := mkState {
  portAttempts : Z;
  server : option Z;      (* the port of the server object, if any *)
  tried : list Z;         (* the ports handed to the constructor, in order *)
  retry : option Z        (* the delay of the armed setTimeout(createServer) *)
}.

Definition initialState : State := mkState 0 None [] None.

Section Port.

Variable WS_PORT : Z.

Definition createServer (outcome : Construction) (s : State) : State :=
  let currentPort := WS_PORT + portAttempts s in
  let tried := tried s ++ [currentPort] in
  match outcome with
  | Constructed => mkState (portAttempts s) (Some currentPort) tried None
  | ThrowsAddressInUse =>
      if portAttempts s <? MAX_PORT_ATTEMPTS
      then mkState (portAttempts s + 1) (server s) tried (Some 1000)
      else mkState (portAttempts s) (server s) tried (Some 5000)
  | ThrowsOther =>
      if MAX_PORT_ATTEMPTS <=? portAttempts s
      then mkState (portAttempts s) (server s) tried (Some 5000)
      else mkState (portAttempts s) (server s) tried (Some 3000)
  end.

(** The armed timer fires and calls [createServer]. *)
Definition step (s : State) (outcome : Construction) : State :=
  match retry s with
  | Some _ => createServer outcome s
  | None => s
  end.

(** The call at the start of the program, then the retries. *)
Definition run (outcomes : list Construction) : State :=
  match outcomes with
  | [] => initialState
  | first :: rest => fold_left step rest (createServer first initialState)
  end.

End Port.

Fixpoint nondecreasing (l : list Z) : Prop :=
  match l with
  | a :: (b :: _) as rest => a <= b /\ nondecreasing rest
  | _ => True
  end.

(** The ports tried so far lie between [WS_PORT] and the current
    candidate, in nondecreasing order. *)
Definition Advancing (WS_PORT : Z) (s : State) : Prop :=
  0 <= portAttempts s <= MAX_PORT_ATTEMPTS /\
  Forall (fun p => WS_PORT <= p <= WS_PORT + portAttempts s) (tried s) /\
  nondecreasing (tried s).

End BridgePorts.

(** ** More concrete runs *)

Module MoreScenarios.

Import AutoPortBridge.



(** A page without elements. *)
Definition emptyPage : PluginSocket.Dom :=
  PluginSocket.mkDom (fun _ => PluginSocket.Elements [])
    (fun _ => PluginSocket.NotFound).

(** A [JSON.stringify] and a clock for the concrete runs. *)
Definition sameText (v : JS.Value) : string := JS.String v.

Definition tick (k : nat) : string := JS.decimal (Z.of_nat k).

Definition pluginStart : PluginSocket.State := PluginSocket.mkState [] 0 true.



(** The frame the bridge forwards for [toolsCall] right after start. *)
Definition forwardedFrame : JS.Value :=
  JS.Obj [("id", JS.Num 1); ("name", JS.Str "query_elements");
          ("arguments", JS.Obj [("selector", JS.Str "div")]);
          ("jsonrpc", JS.Str "2.0")]%string.

(** The state and the frame a call of the 'onmessage' handler ends with. *)
Definition answerOf (r : option (PluginSocket.State * JS.Value))
    : PluginSocket.State * JS.Value :=
  match r with
  | Some x => x
  | None => (pluginStart, JS.Undefined)
  end.


Definition queryAnswer : PluginSocket.State * JS.Value :=
  answerOf (PluginSocket.onmessage sameText tick emptyPage
              (Some forwardedFrame) pluginStart).

End MoreScenarios.

(** * Properties *)

(** ** Facts about [Map] tables *)

Module JSMapFacts.

Import JSMap.

Section Facts.
Context {V : Type}.
Implicit Types (m : list (Z * V)) (k : Z) (v : V).

Lemma get_Some_In k m v : get k m = Some v -> In k (keys m).
Proof.
  induction m as [|[k' v'] m IH]; simpl; [discriminate|].
  destruct (k' =? k) eqn:E; [apply Z.eqb_eq in E; auto | auto].
Qed.

Lemma get_None_notin k m : get k m = None <-> ~ In k (keys m).
Proof.
  induction m as [|[k' v'] m IH]; simpl; [tauto|].
  destruct (k' =? k) eqn:E.
  - apply Z.eqb_eq in E. split; [discriminate | intros H; exfalso; auto].
  - apply Z.eqb_neq in E. rewrite IH. tauto.
Qed.

Lemma has_true_In k m : has k m = true <-> In k (keys m).
Proof.
  unfold has. destruct (get k m) eqn:E.
  - split; [intros _; eapply get_Some_In; eauto | reflexivity].
  - split; [discriminate | intros H; apply get_None_notin in E; tauto].
Qed.

Lemma keys_delete k m :
  keys (delete k m) = filter (fun x => negb (x =? k)) (keys m).
Proof.
  induction m as [|[k' v'] m IH]; simpl; [reflexivity|].
  destruct (k' =? k); simpl; [assumption | now rewrite IH].
Qed.

Lemma In_keys_delete k k' m :
  In k' (keys (delete k m)) <-> In k' (keys m) /\ k' <> k.
Proof.
  rewrite keys_delete, filter_In, negb_true_iff, Z.eqb_neq. tauto.
Qed.

Lemma delete_notin k m : ~ In k (keys m) -> delete k m = m.
Proof.
  induction m as [|[k' v'] m IH]; simpl; [reflexivity|]. intros H.
  destruct (k' =? k) eqn:E.
  - apply Z.eqb_eq in E. tauto.
  - rewrite IH; tauto.
Qed.

Lemma set_notin k v m : ~ In k (keys m) -> set k v m = m ++ [(k, v)].
Proof.
  induction m as [|[k' v'] m IH]; simpl; [reflexivity|]. intros H.
  destruct (k' =? k) eqn:E.
  - apply Z.eqb_eq in E. tauto.
  - rewrite IH; tauto.
Qed.

Lemma delete_snoc k v m : ~ In k (keys m) -> delete k (m ++ [(k, v)]) = m.
Proof.
  induction m as [|[k' v'] m IH]; simpl.
  - now rewrite Z.eqb_refl.
  - intros H. destruct (k' =? k) eqn:E.
    + apply Z.eqb_eq in E. tauto.
    + rewrite IH; tauto.
Qed.

Lemma NoDup_keys_delete k m : NoDup (keys m) -> NoDup (keys (delete k m)).
Proof. rewrite keys_delete. apply NoDup_filter. Qed.

Lemma length_delete k m :
  NoDup (keys m) -> In k (keys m) ->
  S (List.length (delete k m)) = List.length m.
Proof.
  induction m as [|[k' v'] m IH]; simpl; [tauto|].
  intros Hnd Hin. inversion Hnd as [|? ? Hni Hnd']; subst.
  destruct (k' =? k) eqn:E.
  - apply Z.eqb_eq in E. subst. now rewrite delete_notin.
  - apply Z.eqb_neq in E. simpl. rewrite IH; tauto.
Qed.


End Facts.

(** Two tables with the same keys keep the same keys when one key is
    deleted from both. *)
Lemma keys_delete_both {V W : Type} k (m : list (Z * V)) (n : list (Z * W)) :
  keys m = keys n -> keys (delete k m) = keys (delete k n).
Proof. intros H. now rewrite !keys_delete, H. Qed.

End JSMapFacts.

(** ** auto_port_bridge.js: the invariant of the correlator *)

Module AutoPortBridgeFacts.

Import AutoPortBridge.
Import JSMapFacts.

Section MapExtra.
Context {V : Type}.
Lemma get_Some_In_pair k (m : list (Z * V)) v : JSMap.get k m = Some v -> In (k, v) m.
Proof.
  induction m as [|[k' v'] m IH]; simpl; [discriminate|].
  destruct (k' =? k) eqn:E.
  - apply Z.eqb_eq in E. intros [= ->]. subst. auto.
  - auto.
Qed.

Lemma In_delete k (m : list (Z * V)) x : In x (JSMap.delete k m) -> In x m.
Proof.
  induction m as [|[k' v'] m IH]; simpl; [tauto|].
  destruct (k' =? k); simpl; intuition.
Qed.

Lemma In_pair_keys k v (m : list (Z * V)) : In (k, v) m -> In k (JSMap.keys m).
Proof. intros H. apply (in_map fst) in H. exact H. Qed.

Lemma delete_all_keys (l : list (Z * V)) :
  forall {W} (t : list (Z * W)),
  NoDup (JSMap.keys l) -> JSMap.keys t = JSMap.keys l ->
  fold_left (fun t e => JSMap.delete (fst e) t) l t = [].
Proof.
  induction l as [|[k v] l IH]; intros W t Hnd Hk; simpl in *.
  - destruct t; [reflexivity | discriminate].
  - destruct t as [|[k' d] t]; [discriminate|]. simpl in Hk.
    injection Hk as -> Hk. simpl. rewrite Z.eqb_refl.
    inversion Hnd; subst.
    rewrite delete_notin by (rewrite Hk; assumption).
    now apply IH.
Qed.
End MapExtra.

Lemma settle_request id e how s :
  isRequest (awaiting e) = true ->
  settle id e how s =
  set_stdout (stdout s ++ [replyFrame (awaiting e) how])
    (set_settled (settled s ++ [(id, how)]) s).
Proof.
  intros H. unfold settle, replyFrame, callerId.
  destruct (awaiting e); try discriminate; destruct how; reflexivity.
Qed.

Lemma rejectAll_fold error (l : list (Z * PendingRequest)) :
  forall s,
  (forall id e, In (id, e) l -> timeout e = id /\ isRequest (awaiting e) = true) ->
  fold_left
    (fun s e =>
       let s := clearTimeout (timeout (snd e)) s in
       settle (fst e) (snd e) (Rejected error) s) l s =
  mkState (obsidianConnection s) (pendingRequests s) (nextRequestId s)
    (clock s) (fold_left (fun t e => JSMap.delete (fst e) t) l (timers s))
    (clients s)
    (stdout s ++ map (fun e => errorFrame (callerId (awaiting (snd e))) error) l)
    (socketOut s)
    (settled s ++ map (fun e => (fst e, Rejected error)) l).
Proof.
  induction l as [|[id e] l IH]; intros s H; simpl.
  - rewrite !app_nil_r. now destruct s.
  - destruct (H id e (or_introl eq_refl)) as [Ht Hr].
    rewrite IH by (intros; apply H; now right).
    rewrite settle_request by assumption. rewrite Ht.
    destruct s; simpl. now rewrite <- !app_assoc.
Qed.

Lemma readyState_new ws r s :
  readyState ws s = None ->
  readyState ws (set_clients (clients s ++ [(ws, r)]) s) = Some r.
Proof.
  unfold readyState. destruct s as [? ? ? ? ? cl ? ? ?]; simpl.
  induction cl as [|[w x] cl IH]; simpl.
  - now rewrite Nat.eqb_refl.
  - destruct (Nat.eqb w ws); [discriminate | exact IH].
Qed.

Lemma readyState_other ws ws' r s :
  readyState ws s = None -> readyState ws' s = Some OPEN ->
  readyState ws' (set_clients (clients s ++ [(ws, r)]) s) = Some OPEN.
Proof.
  unfold readyState. destruct s as [? ? ? ? ? cl ? ? ?]; simpl.
  induction cl as [|[w x] cl IH]; simpl; [discriminate|].
  destruct (Nat.eqb w ws) eqn:E1; [discriminate|].
  destruct (Nat.eqb w ws') eqn:E2; auto.
Qed.

Lemma Invariant_frame s s' :
  Invariant s ->
  obsidianConnection s' = obsidianConnection s ->
  pendingRequests s' = pendingRequests s ->
  nextRequestId s' = nextRequestId s ->
  timers s' = timers s ->
  clients s' = clients s ->
  settled s' = settled s ->
  Invariant s'.
Proof.
  intros [H1 H2 H3 H4 H5 H6 H7 H8] Ec Ep En Et Ecl Es.
  constructor; rewrite ?Ec, ?Ep, ?En, ?Et, ?Es; auto.
  intros ws Hws. unfold readyState. rewrite Ecl. apply H8. congruence.
Qed.

Lemma Invariant_initial : Invariant initialState.
Proof.
  constructor; simpl; try tauto; try constructor; try discriminate.
Qed.

(** Settling a pending request: the entry and its timer go, one
    resolution is recorded. *)
Lemma Invariant_settle s id e how :
  Invariant s ->
  JSMap.get id (pendingRequests s) = Some e ->
  Invariant
    (settle id e how
       (set_pendingRequests (JSMap.delete id (pendingRequests s))
          (clearTimeout id s))).
Proof.
  intros [H1 H2 H3 H4 H5 H6 H7 H8] Hget.
  pose proof (get_Some_In_pair _ _ _ Hget) as Hin.
  pose proof (In_pair_keys _ _ _ Hin) as Hkey.
  destruct (H7 _ _ Hin) as [_ Hreq].
  rewrite settle_request by assumption.
  destruct s as [conn pend next clk tmr cl out sock stl]; simpl in *.
  constructor; simpl.
  - intros id' Hid'. apply In_keys_delete in Hid'. apply H1. tauto.
  - intros id' Hid'. rewrite map_app, in_app_iff in Hid'. simpl in Hid'.
    destruct Hid' as [Hid'|[<-|[]]]; auto.
  - now apply NoDup_keys_delete.
  - rewrite map_app. simpl. apply NoDup_app; [assumption | repeat constructor; simpl; tauto | ].
    intros x Hx [<-|[]]. exact (H5 _ Hkey Hx).
  - intros id' Hid'. apply In_keys_delete in Hid'. destruct Hid' as [Hid' Hne].
    rewrite map_app, in_app_iff. simpl. intros [Hs|[Heq|[]]]; [exact (H5 _ Hid' Hs) | congruence].
  - now apply keys_delete_both.
  - intros id' e' Hin'. apply In_delete in Hin'. eauto.
  - exact H8.
Qed.

Lemma onMessage_pending s response id error result e :
  Invariant s ->
  JS.prop response "id" = Some (JS.Num id) ->
  JS.prop response "error" = Some error ->
  JS.prop response "result" = Some result ->
  JSMap.get id (pendingRequests s) = Some e ->
  onMessage (Some response) s =
  settle id e
    (if JS.truthy error then Rejected (responseErrorMessage error)
     else Resolved result)
    (set_pendingRequests (JSMap.delete id (pendingRequests s))
       (clearTimeout id s)).
Proof.
  intros Hinv Hid He Hr Hget.
  destruct (inv_entries _ Hinv _ _ (get_Some_In_pair _ _ _ Hget)) as [Ht _].
  unfold onMessage. now rewrite Hid, He, Hr, Hget, Ht.
Qed.

Lemma prop_some_all response k v k' :
  JS.prop response k = Some v -> exists v', JS.prop response k' = Some v'.
Proof. destruct response; simpl; try discriminate; eauto. Qed.

Lemma onMessage_not_pending s data :
  (forall response id, data = Some response ->
     JS.prop response "id" = Some (JS.Num id) ->
     JSMap.get id (pendingRequests s) = None) ->
  onMessage data s = s.
Proof.
  intros H. destruct data as [response|]; [|reflexivity].
  unfold onMessage.
  destruct (JS.prop response "id") as [[]|] eqn:E; try reflexivity;
    destruct (JS.prop response "error"); try reflexivity;
    destruct (JS.prop response "result"); try reflexivity.
  now rewrite (H response n eq_refl E).
Qed.

Lemma Invariant_onMessage s data : Invariant s -> Invariant (onMessage data s).
Proof.
  intros Hinv. destruct data as [response|]; [|exact Hinv].
  destruct (JS.prop response "id") as [[| | |id| | |]|] eqn:E;
    try (rewrite onMessage_not_pending; [exact Hinv|];
         intros r i [= <-] Hr; congruence).
  destruct (JSMap.get id (pendingRequests s)) as [e|] eqn:G.
  - destruct (prop_some_all _ _ _ "error" E) as [error He].
    destruct (prop_some_all _ _ _ "result" E) as [result Hr].
    rewrite (onMessage_pending _ _ _ _ _ _ Hinv E He Hr G).
    now apply Invariant_settle.
  - rewrite onMessage_not_pending; [exact Hinv|].
    intros r i [= <-] Hr. congruence.
Qed.

Lemma Invariant_onTimeout s handle due :
  Invariant s -> JSMap.get handle (timers s) = Some due ->
  Invariant (onTimeout handle (clearTimeout handle s)).
Proof.
  intros Hinv Hdue.
  assert (Hk : In handle (JSMap.keys (pendingRequests s))).
  { rewrite <- (inv_timers _ Hinv). eapply get_Some_In; eauto. }
  apply has_true_In in Hk. unfold JSMap.has in Hk.
  destruct (JSMap.get handle (pendingRequests s)) as [e|] eqn:G; [|discriminate].
  unfold onTimeout. replace (pendingRequests (clearTimeout handle s)) with (pendingRequests s) by reflexivity.
  rewrite G. now apply Invariant_settle.
Qed.

Lemma onClose_eq s :
  Invariant s ->
  onClose s =
  mkState None [] (nextRequestId s) (clock s) [] (clients s)
    (stdout s ++
     map (fun e => errorFrame (callerId (awaiting (snd e)))
                     "WebSocket connection closed") (pendingRequests s))
    (socketOut s)
    (settled s ++
     map (fun e => (fst e, Rejected "WebSocket connection closed"))
       (pendingRequests s)).
Proof.
  intros Hinv. unfold onClose.
  rewrite rejectAll_fold by (apply (inv_entries _ Hinv)).
  cbn [set_obsidianConnection set_pendingRequests obsidianConnection pendingRequests
       nextRequestId clock timers clients stdout socketOut settled].
  rewrite delete_all_keys; [reflexivity | apply Hinv | apply Hinv].
Qed.

Lemma onClose_clients_irrelevant ws r s :
  Invariant s -> 
  onClose (setReadyState ws r s) =
  set_clients (clients (setReadyState ws r s)) (onClose s).
Proof.
  intros Hinv. unfold onClose.
  rewrite !rejectAll_fold; try apply (inv_entries _ Hinv).
  reflexivity.
Qed.

Lemma Invariant_onClose s cl :
  Invariant s -> Invariant (set_clients cl (onClose s)).
Proof.
  intros Hinv. rewrite onClose_eq by assumption.
  destruct Hinv as [H1 H2 H3 H4 H5 H6 H7 H8].
  constructor; simpl; try tauto; try constructor; try discriminate.
  - intros id. rewrite map_app, map_map, in_app_iff. simpl.
    intros [H|H]; auto.
  - rewrite map_app, map_map. simpl. apply NoDup_app; auto.
    intros x Hx Hy. exact (H5 _ Hy Hx).
Qed.

Lemma prop_request m k :
  isRequest m = true -> exists v, JS.prop m k = Some v.
Proof. destruct m; try discriminate; simpl; eauto. Qed.

Lemma prop_id_request m :
  isRequest m = true -> JS.prop m "id" = Some (callerId m).
Proof. unfold callerId. destruct m; try discriminate; reflexivity. Qed.


Lemma finish_returned m v s :
  isRequest m = true -> JS.is_null v = false ->
  handleMcpRequest_finish m (Returned v) s = sendMcpResponse (callerId m) v s.
Proof.
  intros Hm Hv. unfold handleMcpRequest_finish.
  now rewrite Hv, prop_id_request.
Qed.

Lemma finish_thrown m e s :
  isRequest m = true ->
  handleMcpRequest_finish m (Thrown e) s = sendMcpError (callerId m) e s.
Proof.
  intros Hm. unfold handleMcpRequest_finish. now rewrite prop_id_request.
Qed.

Lemma handleMcpRequest_not_request m s :
  isRequest m = false -> handleMcpRequest m s = s.
Proof. destruct m; try discriminate; reflexivity. Qed.

Lemma forwardToObsidian_sent m params name arguments ws s :
  Invariant s ->
  obsidianConnection s = Some ws ->
  JS.prop params "name" = Some name ->
  JS.prop params "arguments" = Some arguments ->
  forwardToObsidian m params s =
  (mkState (Some ws)
     (pendingRequests s ++ [(nextRequestId s, mkPending m (nextRequestId s))])
     (nextRequestId s + 1) (clock s)
     (timers s ++ [(nextRequestId s, clock s + 15000)]) (clients s) (stdout s)
     (socketOut s ++
      [(ws, JS.Obj [("id", JS.Num (nextRequestId s)); ("name", name);
                    ("arguments", JS.or arguments (JS.Obj []));
                    ("jsonrpc", JS.Str "2.0")]%string)])
     (settled s),
   nextRequestId s, None).
Proof.
  intros [H1 H2 H3 H4 H5 H6 H7 H8] Hc Hn Ha.
  assert (Hfresh : ~ In (nextRequestId s) (JSMap.keys (pendingRequests s))).
  { intros Hin. apply H1 in Hin. lia. }
  specialize (H8 _ Hc). unfold readyState in H8.
  unfold forwardToObsidian, send, readyState.
  destruct s as [conn pend next clk tmr cl out sock stl]; simpl in *.
  subst conn. rewrite Hn, Ha, H8. simpl.
  now rewrite set_notin.
Qed.

Lemma forwardToObsidian_throws m params ws s :
  Invariant s ->
  obsidianConnection s = Some ws ->
  JS.prop params "name" = None ->
  forwardToObsidian m params s =
  (reject (nextRequestId s) (JS.TypeError_message params "name")
     (set_nextRequestId (nextRequestId s + 1) s),
   nextRequestId s, Some (JS.TypeError_message params "name")).
Proof.
  intros [H1 H2 H3 H4 H5 H6 H7 H8] Hc Hn.
  assert (Hfresh : ~ In (nextRequestId s) (JSMap.keys (pendingRequests s))).
  { intros Hin. apply H1 in Hin. lia. }
  assert (Hfresh' : ~ In (nextRequestId s) (JSMap.keys (timers s))).
  { now rewrite H6. }
  unfold forwardToObsidian.
  destruct s as [conn pend next clk tmr cl out sock stl]; simpl in *.
  subst conn. rewrite Hn. unfold reject, clearTimeout. simpl.
  rewrite set_notin by assumption.
  now rewrite !delete_snoc.
Qed.

(** The three ways in which [handleMcpRequest] deals with a request. *)
Lemma handleMcpRequest_cases m s :
  Invariant s -> isRequest m = true ->
  (exists frame, handleMcpRequest m s = set_stdout (stdout s ++ [frame]) s) \/
  (exists error,
     handleMcpRequest m s =
     sendMcpError (callerId m) error
       (reject (nextRequestId s) error
          (set_nextRequestId (nextRequestId s + 1) s))) \/
  (exists ws request,
     obsidianConnection s = Some ws /\
     handleMcpRequest m s =
     mkState (Some ws)
       (pendingRequests s ++ [(nextRequestId s, mkPending m (nextRequestId s))])
       (nextRequestId s + 1) (clock s)
       (timers s ++ [(nextRequestId s, clock s + 15000)]) (clients s)
       (stdout s) (socketOut s ++ [(ws, request)]) (settled s)).
Proof.
  intros Hinv Hm. unfold handleMcpRequest, processRequest.
  destruct (prop_request m "method" Hm) as [method ->].
  repeat match goal with
  | |- context [if methodIs method ?n then _ else _] =>
      destruct (methodIs method n) eqn:?
  end;
  try (left; eexists; rewrite ?finish_returned, ?finish_thrown by (assumption || reflexivity); reflexivity).
  destruct (obsidianConnection s) as [ws|] eqn:Hc;
    [| left; eexists; rewrite finish_thrown by assumption; reflexivity].
  destruct (prop_request m "params" Hm) as [params ->].
  destruct (JS.prop params "name") as [name|] eqn:Hn.
  - assert (exists a, JS.prop params "arguments" = Some a) as [a Ha].
    { destruct params; try discriminate; simpl; eauto. }
    rewrite (forwardToObsidian_sent _ _ _ _ _ _ Hinv Hc Hn Ha).
    right; right. exists ws. eexists. split; [reflexivity|]. reflexivity.
  - rewrite (forwardToObsidian_throws _ _ _ _ Hinv Hc Hn).
    right; left. eexists. rewrite finish_thrown by assumption. reflexivity.
Qed.

Lemma Invariant_handleMcpRequest m s :
  Invariant s -> Invariant (handleMcpRequest m s).
Proof.
  intros Hinv. destruct (isRequest m) eqn:Hm;
    [| now rewrite handleMcpRequest_not_request].
  destruct (handleMcpRequest_cases m s Hinv Hm)
    as [[frame ->]|[[error ->]|[ws [request [Hc ->]]]]].
  - eapply Invariant_frame; eauto.
  - destruct Hinv as [H1 H2 H3 H4 H5 H6 H7 H8].
    constructor; simpl; auto.
    + intros id Hid. apply H1 in Hid. lia.
    + intros id. rewrite map_app, in_app_iff. simpl.
      intros [Hid|[<-|[]]]; [apply H2 in Hid|]; lia.
    + rewrite map_app. apply NoDup_app; auto; [repeat constructor; simpl; tauto|].
      intros x Hx [<-|[]]. simpl in Hx. apply H2 in Hx. lia.
    + intros id Hid. rewrite map_app, in_app_iff. simpl.
      intros [Hs|[<-|[]]]; [exact (H5 _ Hid Hs)| apply H1 in Hid; lia].
  - destruct Hinv as [H1 H2 H3 H4 H5 H6 H7 H8].
    constructor; simpl.
    + intros id. unfold JSMap.keys. rewrite map_app, in_app_iff. simpl.
      intros [Hid|[<-|[]]]; [apply H1 in Hid|]; lia.
    + intros id Hid. apply H2 in Hid. lia.
    + unfold JSMap.keys. rewrite map_app. apply NoDup_app; auto; [repeat constructor; simpl; tauto|].
      intros x Hx [<-|[]]. simpl in Hx. apply H1 in Hx. lia.
    + assumption.
    + intros id. unfold JSMap.keys. rewrite map_app, in_app_iff. simpl.
      intros [Hid|[<-|[]]] Hs; [exact (H5 _ Hid Hs)| apply H2 in Hs; lia].
    + unfold JSMap.keys in *. rewrite !map_app. simpl. now rewrite H6.
    + intros id e. rewrite in_app_iff. simpl.
      intros [Hin|[[= <- <-]|[]]]; [eauto | simpl; auto].
    + intros ws' [= <-]. apply H8. exact Hc.
Qed.

Lemma Invariant_step s e : Invariant s -> Invariant (step s e).
Proof.
  intros Hinv. destruct e as [m|ws|ws data|ws|handle|ms]; simpl.
  - now apply Invariant_handleMcpRequest.
  - destruct (readyState ws s) eqn:Hr; [exact Hinv|].
    destruct Hinv as [H1 H2 H3 H4 H5 H6 H7 H8].
    constructor; auto.
    intros ws' [= <-]. now apply readyState_new.
  - destruct (isClosed (readyState ws s)); [exact Hinv|].
    now apply Invariant_onMessage.
  - destruct (isClosed (readyState ws s)); [exact Hinv|].
    rewrite onClose_clients_irrelevant by assumption.
    now apply Invariant_onClose.
  - destruct (JSMap.get handle (timers s)) as [due|] eqn:G; [|exact Hinv].
    destruct (due <=? clock s); [|exact Hinv].
    eapply Invariant_onTimeout; eauto.
  - destruct (0 <=? ms); [|exact Hinv].
    eapply Invariant_frame; eauto.
Qed.

Lemma Invariant_run events : forall s, Invariant s -> Invariant (run s events).
Proof.
  induction events as [|e events IH]; intros s Hinv; simpl; [exact Hinv|].
  apply IH. now apply Invariant_step.
Qed.

Lemma Invariant_reachable events : Invariant (run initialState events).
Proof. apply Invariant_run, Invariant_initial. Qed.

(** Lines written plus requests pending: what one event adds. *)
Lemma count_settle s id e how :
  Invariant s -> JSMap.get id (pendingRequests s) = Some e ->
  answeredOrPending
    (settle id e how
       (set_pendingRequests (JSMap.delete id (pendingRequests s))
          (clearTimeout id s))) = answeredOrPending s.
Proof.
  intros Hinv Hget.
  pose proof (get_Some_In_pair _ _ _ Hget) as Hin.
  destruct (inv_entries _ Hinv _ _ Hin) as [_ Hreq].
  rewrite settle_request by assumption.
  unfold answeredOrPending, JSMap.size. simpl.
  rewrite length_app. simpl.
  pose proof (length_delete id (pendingRequests s) (inv_pending_nodup _ Hinv)
                (In_pair_keys _ _ _ Hin)).
  lia.
Qed.

Lemma count_step s e :
  Invariant s ->
  answeredOrPending (step s e) =
  (answeredOrPending s + requestsIn [e])%nat.
Proof.
  intros Hinv. destruct e as [m|ws|ws data|ws|handle|ms]; simpl;
    unfold requestsIn; simpl.
  - destruct (isRequest m) eqn:Hm.
    + destruct (handleMcpRequest_cases m s Hinv Hm)
        as [[frame ->]|[[error ->]|[ws [request [Hc ->]]]]];
        unfold answeredOrPending, JSMap.size; simpl;
        rewrite ?length_app; simpl; lia.
    + rewrite handleMcpRequest_not_request by assumption. simpl. lia.
  - destruct (readyState ws s); unfold answeredOrPending; simpl; lia.
  - rewrite Nat.add_0_r.
    destruct (isClosed (readyState ws s)); [reflexivity|].
    destruct data as [response|]; [|reflexivity].
    destruct (JS.prop response "id") as [[| | |id| | |]|] eqn:E;
      try (rewrite onMessage_not_pending; [reflexivity|];
           intros r i [= <-] Hr; congruence).
    destruct (JSMap.get id (pendingRequests s)) as [en|] eqn:G.
    + destruct (prop_some_all _ _ _ "error" E) as [error He].
      destruct (prop_some_all _ _ _ "result" E) as [result Hr].
      rewrite (onMessage_pending _ _ _ _ _ _ Hinv E He Hr G).
      now apply count_settle.
    + rewrite onMessage_not_pending; [reflexivity|].
      intros r i [= <-] Hr. congruence.
  - rewrite Nat.add_0_r.
    destruct (isClosed (readyState ws s)); [reflexivity|].
    rewrite onClose_clients_irrelevant, onClose_eq by assumption.
    unfold answeredOrPending, JSMap.size. simpl.
    rewrite length_app, length_map. lia.
  - rewrite Nat.add_0_r.
    destruct (JSMap.get handle (timers s)) as [due|] eqn:G; [|reflexivity].
    destruct (due <=? clock s); [|reflexivity].
    assert (Hk : In handle (JSMap.keys (pendingRequests s))).
    { rewrite <- (inv_timers _ Hinv). eapply get_Some_In; eauto. }
    apply has_true_In in Hk. unfold JSMap.has in Hk.
    destruct (JSMap.get handle (pendingRequests s)) as [en|] eqn:G'; [|discriminate].
    unfold onTimeout.
    replace (pendingRequests (clearTimeout handle s)) with (pendingRequests s) by reflexivity.
    rewrite G'. now apply count_settle.
  - destruct (0 <=? ms); simpl; unfold answeredOrPending; simpl; lia.
Qed.

Lemma requestsIn_cons e events :
  requestsIn (e :: events) = (requestsIn [e] + requestsIn events)%nat.
Proof.
  unfold requestsIn. simpl.
  destruct (match e with Stdin m => isRequest m | _ => false end); reflexivity.
Qed.

Lemma count_run events : forall s,
  Invariant s ->
  answeredOrPending (run s events) =
  (answeredOrPending s + requestsIn events)%nat.
Proof.
  induction events as [|e events IH]; intros s Hinv; simpl.
  - unfold requestsIn. simpl. lia.
  - rewrite IH by now apply Invariant_step.
    rewrite count_step by assumption.
    rewrite (requestsIn_cons e events). lia.
Qed.

End AutoPortBridgeFacts.

(** ** auto_port_bridge.js and bridge.js: correlator, translator, listener *)

Module Translator.

Import AutoPortBridge.
Import JSMapFacts.
Import AutoPortBridgeFacts.
Import Scenarios.

Lemma get_snoc_fresh {V} k (v : V) m :
  ~ In k (JSMap.keys m) -> JSMap.get k (m ++ [(k, v)]) = Some v.
Proof.
  induction m as [|[k' v'] m IH]; simpl.
  - now rewrite Z.eqb_refl.
  - intros H. destruct (k' =? k) eqn:E.
    + apply Z.eqb_eq in E. tauto.
    + apply IH. tauto.
Qed.





















Lemma Bridge_rejectAll_fold (l : list (JS.Value * Bridge.PendingRequest)) :
  forall s,
  Forall (fun e => isRequest (Bridge.awaiting (snd e)) = true) l ->
  fold_left
    (fun s e =>
       Bridge.rejectPending (snd e) "WebSocket connection closed"
         (Bridge.clearTimeout (Bridge.timeout (snd e)) s)) l s =
  Bridge.mkState (Bridge.obsidianConnection s) (Bridge.pendingRequests s)
    (fold_left
       (fun t e => filter (fun h => negb (h =? Bridge.timeout (snd e))) t)
       l (Bridge.timers s))
    (Bridge.clients s)
    (Bridge.stdout s ++
     map (fun e =>
            JS.Obj [("jsonrpc", JS.Str "2.0");
                    ("id", callerId (Bridge.awaiting (snd e)));
                    ("result",
                     Bridge.errorResult "WebSocket connection closed")]%string)
       l).
Proof.
  induction l as [|e l IH]; intros s Hl; simpl.
  - rewrite app_nil_r. now destruct s.
  - inversion Hl as [|? ? He Hl']; subst.
    rewrite IH by assumption.
    unfold Bridge.rejectPending, Bridge.handleMcpRequest_finish. simpl.
    rewrite prop_id_request by assumption.
    destruct s; simpl. now rewrite <- app_assoc.
Qed.

Lemma Bridge_timers_cleared (l : list (JS.Value * Bridge.PendingRequest)) :
  forall (t : list Z) h,
  (~ In h t \/ exists e, In e l /\ Bridge.timeout (snd e) = h) ->
  ~ In h (fold_left
            (fun t e => filter (fun h0 => negb (h0 =? Bridge.timeout (snd e))) t)
            l t).
Proof.
  induction l as [|x l IH]; intros t h H; simpl.
  - destruct H as [H|[e [[] _]]]. exact H.
  - apply IH. destruct H as [H|[e [[->|Hin] He]]].
    + left. rewrite filter_In. tauto.
    + left. rewrite filter_In, negb_true_iff, Z.eqb_neq. intros [_ Hne]. now apply Hne.
    + right. eauto.
Qed.

(** C3.  When the peer disconnects, every pending entry is rejected with
    'WebSocket connection closed', in the order of the table, its timer
    is cancelled and the table is empty afterwards; nothing is sent to a
    socket again and the counter does not move.  In auto_port_bridge.js
    each rejection becomes a JSON-RPC error line under the identifier of
    its request; in bridge.js it becomes a response whose result holds
    the error. *)
Theorem disconnect_rejects_all_pending :
  forall events (b : Bridge.State),
    Forall (fun e => isRequest (Bridge.awaiting (snd e)) = true)
      (Bridge.pendingRequests b) ->
    (let s := run initialState events in
     let s' := onClose s in
     pendingRequests s' = [] /\
     timers s' = [] /\
     obsidianConnection s' = None /\
     settled s' =
       settled s ++
       map (fun e => (fst e, Rejected "WebSocket connection closed"))
         (pendingRequests s) /\
     stdout s' =
       stdout s ++
       map (fun e => errorFrame (callerId (awaiting (snd e)))
                       "WebSocket connection closed") (pendingRequests s) /\
     socketOut s' = socketOut s /\
     nextRequestId s' = nextRequestId s) /\
    (let b' := Bridge.onClose b in
     Bridge.pendingRequests b' = [] /\
     Bridge.obsidianConnection b' = None /\
     (forall e, In e (Bridge.pendingRequests b) ->
                ~ In (Bridge.timeout (snd e)) (Bridge.timers b')) /\
     Bridge.stdout b' =
       Bridge.stdout b ++
       map (fun e =>
              JS.Obj [("jsonrpc", JS.Str "2.0");
                      ("id", callerId (Bridge.awaiting (snd e)));
                      ("result",
                       Bridge.errorResult "WebSocket connection closed")]%string)
         (Bridge.pendingRequests b)).
Proof.
  intros events b Hb. split.
  - intros s s'. unfold s'.
    rewrite onClose_eq by apply Invariant_reachable.
    simpl. repeat split.
  - intros b'. unfold b', Bridge.onClose.
    rewrite Bridge_rejectAll_fold by assumption. simpl. repeat split.
    intros e Hin. apply Bridge_timers_cleared. right. eauto.
Qed.

(** Two pending calls are rejected in order when the socket closes. *)
Lemma disconnect_rejects_all_pending_witness :
  stdout (onClose (run initialState twoPending)) =
    [errorFrame (JS.Num 7) "WebSocket connection closed";
     errorFrame (JS.Str "b") "WebSocket connection closed"] /\
  pendingRequests (onClose (run initialState twoPending)) = [] /\
  Bridge.pendingRequests (Bridge.onClose legacyPending) = [].
Proof.
  destruct (disconnect_rejects_all_pending twoPending legacyPending)
    as [(A & _ & _ & _ & B & _) (C & _)].
  - repeat constructor.
  - split; [exact B | split; [exact A | exact C]].
Defined.

(** A tools/call forwarded to the peer and the answer of the peer. *)
Lemma tools_call_roundtrip s m ws params name arguments response error result :
  Invariant s ->
  obsidianConnection s = Some ws ->
  JS.prop m "method" = Some (JS.Str "tools/call") ->
  JS.prop m "params" = Some params ->
  JS.prop params "name" = Some name ->
  JS.prop params "arguments" = Some arguments ->
  JS.prop response "id" = Some (JS.Num (nextRequestId s)) ->
  JS.prop response "error" = Some error ->
  JS.prop response "result" = Some result ->
  let s1 := step s (Stdin m) in
  let s2 := step s1 (WsMessage ws (Some response)) in
  socketOut s1 =
    socketOut s ++
    [(ws, JS.Obj [("id", JS.Num (nextRequestId s)); ("name", name);
                  ("arguments", JS.or arguments (JS.Obj []));
                  ("jsonrpc", JS.Str "2.0")]%string)] /\
  stdout s1 = stdout s /\
  socketOut s2 = socketOut s1 /\
  stdout s2 =
    stdout s ++
    [replyFrame m (if JS.truthy error then Rejected (responseErrorMessage error)
                   else Resolved result)].
Proof.
  intros Hinv Hc Hm Hp Hn Ha Hid He Hr s1 s2.
  assert (E1 : s1 =
    mkState (Some ws)
      (pendingRequests s ++ [(nextRequestId s, mkPending m (nextRequestId s))])
      (nextRequestId s + 1) (clock s)
      (timers s ++ [(nextRequestId s, clock s + 15000)]) (clients s) (stdout s)
      (socketOut s ++
       [(ws, JS.Obj [("id", JS.Num (nextRequestId s)); ("name", name);
                     ("arguments", JS.or arguments (JS.Obj []));
                     ("jsonrpc", JS.Str "2.0")]%string)])
      (settled s)).
  { unfold s1, step, handleMcpRequest, processRequest.
    rewrite Hm. simpl. rewrite Hc, Hp.
    now rewrite (forwardToObsidian_sent _ _ _ _ _ _ Hinv Hc Hn Ha). }
  pose proof (Invariant_step s (Stdin m) Hinv) as Hinv1. fold s1 in Hinv1.
  assert (Hfresh : ~ In (nextRequestId s) (JSMap.keys (pendingRequests s))).
  { intros Hin. apply (inv_pending_fresh _ Hinv) in Hin. lia. }
  assert (G : JSMap.get (nextRequestId s) (pendingRequests s1) =
              Some (mkPending m (nextRequestId s))).
  { rewrite E1. simpl. now apply get_snoc_fresh. }
  assert (Hopen : isClosed (readyState ws s1) = false).
  { rewrite (inv_connection _ Hinv1 ws); [reflexivity|]. now rewrite E1. }
  assert (E2 : s2 =
    settle (nextRequestId s) (mkPending m (nextRequestId s))
      (if JS.truthy error then Rejected (responseErrorMessage error)
       else Resolved result)
      (set_pendingRequests (JSMap.delete (nextRequestId s) (pendingRequests s1))
         (clearTimeout (nextRequestId s) s1))).
  { unfold s2, step. rewrite Hopen.
    now apply onMessage_pending. }
  split; [now rewrite E1|]. split; [now rewrite E1|].
  rewrite E2, settle_request
    by (simpl; destruct m; try discriminate; reflexivity).
  split; [reflexivity|]. simpl. now rewrite E1.
Qed.






(** C7, at the failing input.  In auto_port_bridge.js a second incoming
    connection replaces the reference to the first and closes nothing:
    both sockets stay open.  bridge.js closes the first one. *)
Theorem second_peer_does_not_close_first :
  let s := AutoPortBridge.run AutoPortBridge.initialState twoPeers in
  AutoPortBridge.openSockets s = [1%nat; 2%nat] /\
  AutoPortBridge.obsidianConnection s = Some 2%nat /\
  Bridge.openSockets (Bridge.run Bridge.initialState twoPeersLegacy) = [2%nat].
Proof. repeat split. Qed.

(** In auto_port_bridge.js this is so in every state: a new connection
    leaves an open socket open. *)
Lemma connection_keeps_previous_open s ws old :
  readyState old s = Some OPEN ->
  readyState ws s = None ->
  let s' := step s (WsConnection ws) in
  obsidianConnection s' = Some ws /\
  readyState old s' = Some OPEN /\
  readyState ws s' = Some OPEN.
Proof.
  intros Hold Hnew s'. unfold s', step. rewrite Hnew.
  split; [reflexivity|]. split.
  - now apply (readyState_other ws old OPEN s).
  - now apply (readyState_new ws OPEN s).
Qed.

(** In bridge.js the 'close' listener of the replaced socket clears the
    reference to the new one, so a third peer is accepted next to the
    second. *)
Lemma legacy_close_of_replaced_peer :
  let s := Bridge.run Bridge.initialState threePeersLegacy in
  Bridge.openSockets s = [2%nat; 3%nat] /\
  Bridge.obsidianConnection s = Some 3%nat.
Proof. repeat split. Qed.

Lemma legacy_readyState_set ws r s :
  Bridge.readyState ws (Bridge.setReadyState ws r s) =
  match Bridge.readyState ws s with Some _ => Some r | None => None end.
Proof.
  unfold Bridge.readyState, Bridge.setReadyState.
  destruct s as [conn pend tmr cl out]. simpl.
  induction cl as [|[w x] cl IH]; simpl; [reflexivity|].
  destruct (Nat.eqb w ws) eqn:E; simpl; rewrite E; [reflexivity | exact IH].
Qed.

(** What bridge.js does on a new connection: the socket held before is
    no longer open afterwards. *)
Lemma legacy_connection_closes_previous s ws old :
  Bridge.obsidianConnection s = Some old ->
  Bridge.readyState ws s = None ->
  let s' := Bridge.step s (Bridge.WsConnection ws) in
  Bridge.obsidianConnection s' = Some ws /\
  Bridge.readyState old s' <> Some Bridge.OPEN.
Proof.
  intros Hold Hnew s'. unfold s', Bridge.step. rewrite Hnew.
  unfold Bridge.onConnection. simpl. rewrite Hold. split; [reflexivity|].
  set (s1 := Bridge.mkState (Some old) (Bridge.pendingRequests s)
               (Bridge.timers s) (Bridge.clients s ++ [(ws, Bridge.OPEN)])
               (Bridge.stdout s)).
  change (Bridge.readyState old (Bridge.close old s1) <> Some Bridge.OPEN).
  unfold Bridge.close.
  destruct (Bridge.readyState old s1) as [[]|] eqn:E; try congruence.
  rewrite legacy_readyState_set, E. discriminate.
Qed.

End Translator.

(** ** auto_port_bridge.js: the port allocator *)

Module PortAllocator.

Import AutoPortBridge.
Import Scenarios.







(** On "address in use" the promise awaited by createServer is never
    settled: the call stops at the first such port. *)
Lemma createServer_address_in_use :
  createServer (fun _ _ => EADDRINUSE) (initialPortState None) =
  (mkPortState 27125 (Some 27125) None false,
   [TryBind 27125; CloseServer 27125], Suspended 27125).
Proof. reflexivity. Qed.

End PortAllocator.

(** ** auto_service.js: the supervisor *)

Module Supervisor.

Import AutoService.
Import Scenarios.

(** C8, at the failing input.  Three crashes, each shortly before a tick
    of the health check: the tick restarts the bridge, and so does the
    timer of the 'exit' listener 1.5 s later.  Six bridges are started
    within 21.5 s while restartCount is 3, and four run at once. *)
Theorem restarts_exceed_ceiling_within_window :
  let s := run (main startTime) crashesNearHealthCheck in
  spawnedWithin (startTime + 10000) (startTime + 70000) s =
    [1%nat; 2%nat; 3%nat; 4%nat; 5%nat; 6%nat] /\
  restartCount s = 3 /\
  running s = [1%nat; 3%nat; 5%nat; 6%nat].
Proof. repeat split. Qed.

(** The gate of [startBridge]: with five or more restarts counted and
    less than a minute since the last exit nothing is spawned, and a
    timer of one minute is armed. *)
Lemma startBridge_throttled s :
  shutdownRequested s = false ->
  MAX_RESTARTS <= restartCount s ->
  now s - lastRestartTime s < RESTART_COOLDOWN ->
  snd (startBridge s) = None /\
  spawned (fst (startBridge s)) = spawned s /\
  running (fst (startBridge s)) = running s /\
  timers (fst (startBridge s)) =
    timers s ++ [(now s + RESTART_COOLDOWN, CooldownOver)].
Proof.
  intros Hs Hc Ht. unfold startBridge. rewrite Hs.
  apply Z.leb_le in Hc. apply Z.ltb_lt in Ht. rewrite Hc, Ht. simpl.
  repeat split.
Qed.

(** Conversely, a bridge is spawned only while the gate is open. *)
Lemma startBridge_spawns_only_when_open s pid :
  snd (startBridge s) = Some pid ->
  shutdownRequested s = false /\
  (restartCount s < MAX_RESTARTS \/
   RESTART_COOLDOWN <= now s - lastRestartTime s).
Proof.
  unfold startBridge. destruct (shutdownRequested s); [discriminate|].
  destruct (MAX_RESTARTS <=? restartCount s) eqn:C;
    destruct (now s - lastRestartTime s <? RESTART_COOLDOWN) eqn:T;
    simpl; try discriminate; intros _; split; try reflexivity.
  - right. now apply Z.ltb_ge in T.
  - left. now apply Z.leb_gt in C.
  - left. now apply Z.leb_gt in C.
Qed.

(** The callback of that timer resets the counter and starts a bridge. *)
Lemma cooldown_resets_counter s :
  shutdownRequested s = false ->
  restartCount (onTimer CooldownOver s) = 0 /\
  spawned (onTimer CooldownOver s) = spawned s ++ [(now s, nextPid s)].
Proof.
  intros Hs. unfold onTimer, startBridge. simpl. rewrite Hs. simpl.
  split; reflexivity.
Qed.

(** A bridge that crashes again and again, with no health check tick in
    between: four restarts, the fifth is deferred by a minute. *)
Lemma crash_loop_is_throttled :
  let s := run (main startTime) crashLoop in
  spawnedWithin (startTime + 1) (startTime + 74000) s =
    [1%nat; 2%nat; 3%nat; 4%nat] /\
  restartCount s = 5 /\
  bridgeProcess s = None /\
  timers s = [(startTime + 74000, CooldownOver)] /\
  spawnedWithin (startTime + 1) (startTime + 134001)
    (run s [(startTime + 74000, TimerDue CooldownOver)]) =
    [1%nat; 2%nat; 3%nat; 4%nat; 5%nat] /\
  restartCount (run s [(startTime + 74000, TimerDue CooldownOver)]) = 0.
Proof. repeat split. Qed.

End Supervisor.

(** ** main.ts: the console buffer *)

Module ConsoleCapture.

Import Plugin.
Import Scenarios.

(** C10, at the failing input.  With the limit 0 the argument of slice is
    -0, which is 0: the whole buffer is returned. *)
Theorem getConsoleLogs_limit_zero_returns_all :
  getConsoleLogs threeMessages (Some 0) = threeMessages /\
  (0 < Z.of_nat (List.length (getConsoleLogs threeMessages (Some 0)))).
Proof. split; [reflexivity | simpl; lia]. Qed.

Lemma capture_bound buffer m :
  (List.length buffer <= 1000)%nat ->
  (List.length (capture buffer m) <= 1000)%nat.
Proof.
  intros H. unfold capture.
  destruct (1000 <? Z.of_nat (List.length (buffer ++ [m]))) eqn:E.
  - destruct buffer as [|x buffer]; simpl in *; [lia|].
    rewrite length_app. simpl. rewrite length_app in E. simpl in E. lia.
  - apply Z.ltb_ge in E. lia.
Qed.

(** The buffer never holds more than 1000 messages. *)
Lemma consoleMessages_bound messages :
  (List.length (fold_left capture messages []) <= 1000)%nat.
Proof.
  assert (G : forall buffer, (List.length buffer <= 1000)%nat ->
            (List.length (fold_left capture messages buffer) <= 1000)%nat).
  { induction messages as [|m messages IH]; intros buffer H; simpl; [exact H|].
    apply IH. now apply capture_bound. }
  apply G. simpl. lia.
Qed.

(** A full buffer loses its oldest message. *)
Lemma capture_full buffer m :
  List.length buffer = 1000%nat -> capture buffer m = tl buffer ++ [m].
Proof.
  intros H. unfold capture. rewrite length_app. simpl.
  replace (1000 <? Z.of_nat (List.length buffer + 1)) with true
    by (symmetry; apply Z.ltb_lt; lia).
  destruct buffer; [discriminate | reflexivity].
Qed.

(** For a positive limit the last [limit] messages are returned. *)
Lemma getConsoleLogs_positive buffer limit :
  0 < limit ->
  getConsoleLogs buffer (Some limit) =
    skipn (List.length buffer - Z.to_nat limit) buffer /\
  Z.of_nat (List.length (getConsoleLogs buffer (Some limit))) <= limit.
Proof.
  intros H. unfold getConsoleLogs, slice.
  replace (- limit <? 0) with true by (symmetry; apply Z.ltb_lt; lia).
  replace (Z.to_nat (Z.max (Z.of_nat (List.length buffer) + - limit) 0))
    with (List.length buffer - Z.to_nat limit)%nat by lia.
  split; [reflexivity|]. rewrite length_skipn. lia.
Qed.

Lemma getConsoleLogs_default buffer :
  getConsoleLogs buffer None = getConsoleLogs buffer (Some 100).
Proof. reflexivity. Qed.

End ConsoleCapture.

(** ** The line splitter *)

Module FramingFacts.
Import Ascii.
Import Framing.

Lemma substring_0_all s : substring 0 (String.length s) s = s.
Proof. induction s; simpl; [reflexivity | now rewrite IHs]. Qed.

Lemma indexOf_split c s i :
  indexOf c s = Some i ->
  exists pre post,
    s = (pre ++ String c post)%string /\
    indexOf c pre = None /\
    slice 0 i s = pre /\
    sliceFrom (i + 1) s = post /\
    String.length pre = i.
Proof.
  revert i. induction s as [|a s IH]; intros i H; simpl in H; [discriminate|].
  destruct (Ascii.eqb a c) eqn:E.
  - injection H as <-. apply Ascii.eqb_eq in E. subst a.
    exists EmptyString, s. unfold slice, sliceFrom. simpl.
    rewrite Nat.sub_0_r, substring_0_all. repeat split.
  - destruct (indexOf c s) as [j|] eqn:J; [|discriminate].
    injection H as <-.
    destruct (IH j eq_refl) as (pre & post & Hs & Hn & Hp & Hq & Hl).
    exists (String a pre), post.
    split; [simpl; congruence|].
    split; [simpl; now rewrite E, Hn|].
    split; [unfold slice in *; simpl; rewrite Nat.sub_0_r in Hp; now rewrite Hp|].
    split; [|simpl; congruence].
    unfold sliceFrom in *. exact Hq.
Qed.

Lemma length_append (a b : string) :
  String.length (a ++ b) = (String.length a + String.length b)%nat.
Proof. induction a; simpl; [reflexivity | now rewrite IHa]. Qed.

Lemma takeLines_spec : forall fuel buffer lines rest,
  (String.length buffer < fuel)%nat ->
  takeLines fuel buffer = (lines, rest) ->
  unsplit lines rest = buffer /\
  Forall noNewline lines /\
  noNewline rest.
Proof.
  induction fuel as [|fuel IH]; intros buffer lines rest Hf E; [lia|].
  simpl in E. destruct (indexOf newline buffer) as [i|] eqn:I.
  - destruct (indexOf_split _ _ _ I) as (pre & post & Hs & Hn & Hp & Hq & Hl).
    rewrite Hp, Hq in E.
    destruct (takeLines fuel post) as [ls r] eqn:T.
    injection E as <- <-.
    destruct (IH post ls r) as (A & B & C).
    + rewrite Hs, length_append in Hf. simpl in Hf. lia.
    + exact T.
    + simpl. rewrite A. repeat split; auto.
  - injection E as <- <-. simpl. repeat split; auto.
Qed.

Lemma indexOf_append_None c a b :
  indexOf c a = None -> 
  indexOf c (a ++ String c b) = Some (String.length a).
Proof.
  induction a as [|x a IH]; simpl.
  - now rewrite Ascii.eqb_refl.
  - destruct (Ascii.eqb x c); [discriminate|].
    destruct (indexOf c a); [discriminate|]. intros _. now rewrite IH.
Qed.

Lemma prefix_unique c a b a' b' :
  indexOf c a = None -> indexOf c a' = None ->
  (a ++ String c b)%string = (a' ++ String c b')%string ->
  a = a' /\ b = b'.
Proof.
  revert a'. induction a as [|x a IH]; intros [|x' a'] Ha Ha' E; simpl in *.
  - injection E as ->. auto.
  - injection E as <- _. rewrite Ascii.eqb_refl in Ha'. discriminate.
  - injection E as -> _. rewrite Ascii.eqb_refl in Ha. discriminate.
  - injection E as <- E.
    destruct (Ascii.eqb x c); [discriminate|].
    destruct (indexOf c a) eqn:A; [discriminate|].
    destruct (indexOf c a') eqn:A'; [discriminate|].
    destruct (IH a' eq_refl A' E) as [-> ->]. auto.
Qed.

Lemma indexOf_None_append c a b :
  indexOf c (a ++ b) = None -> indexOf c a = None /\ indexOf c b = None.
Proof.
  induction a as [|x a IH]; simpl; [auto|].
  destruct (Ascii.eqb x c); [discriminate|].
  destruct (indexOf c (a ++ b)) eqn:E; [discriminate|]. intros _.
  destruct (IH eq_refl) as [-> ->]. auto.
Qed.

(** A text splits into newline-free lines and a newline-free rest in one
    way only. *)
Lemma unsplit_unique : forall lines rest lines' rest',
  Forall noNewline lines -> noNewline rest ->
  Forall noNewline lines' -> noNewline rest' ->
  unsplit lines rest = unsplit lines' rest' ->
  lines = lines' /\ rest = rest'.
Proof.
  induction lines as [|l ls IH]; intros rest [|l' ls'] rest' Hl Hr Hl' Hr' E;
    simpl in E.
  - auto.
  - exfalso. pose proof (Forall_inv Hl') as Hn.
    unfold noNewline in Hr. rewrite E in Hr.
    rewrite (indexOf_append_None _ _ _ Hn) in Hr. discriminate.
  - exfalso. pose proof (Forall_inv Hl) as Hn.
    unfold noNewline in Hr'. rewrite <- E in Hr'.
    rewrite (indexOf_append_None _ _ _ Hn) in Hr'. discriminate.
  - pose proof (Forall_inv Hl) as Hn. pose proof (Forall_inv_tail Hl) as Hls.
    pose proof (Forall_inv Hl') as Hn'.
    pose proof (Forall_inv_tail Hl') as Hls'.
    destruct (prefix_unique _ _ _ _ _ Hn Hn' E) as [-> E'].
    destruct (IH _ _ _ Hls Hr Hls' Hr' E') as [-> ->]. auto.
Qed.

Lemma unsplit_app lines lines' rest :
  unsplit (lines ++ lines') rest = unsplit lines (unsplit lines' rest).
Proof. induction lines; simpl; [reflexivity | now rewrite IHlines]. Qed.

Lemma append_assoc (a b c : string) :
  ((a ++ b) ++ c)%string = (a ++ (b ++ c))%string.
Proof. induction a; simpl; [reflexivity | now rewrite IHa]. Qed.

Lemma unsplit_append lines rest chunk :
  (unsplit lines rest ++ chunk)%string = unsplit lines (rest ++ chunk).
Proof.
  induction lines; simpl; [reflexivity|].
  now rewrite append_assoc, <- IHlines.
Qed.

Lemma onData_spec inputBuffer chunk lines rest :
  onData inputBuffer chunk = (lines, rest) ->
  unsplit lines rest = (inputBuffer ++ chunk)%string /\
  Forall noNewline lines /\
  noNewline rest.
Proof.
  intros E. unfold onData in E.
  eapply takeLines_spec; [|exact E]. lia.
Qed.

(** X1.  A 'data' listener loses and invents nothing: the lines it hands
    on, each followed by a newline, and the buffer it keeps are together
    the old buffer followed by the chunk; no line and no kept buffer
    contains a newline, so every complete line has been handed on. *)
Theorem onData_conserves_text :
  forall inputBuffer chunk,
    let lines := fst (onData inputBuffer chunk) in
    let rest := snd (onData inputBuffer chunk) in
    unsplit lines rest = (inputBuffer ++ chunk)%string /\
    Forall noNewline lines /\
    noNewline rest.
Proof.
  intros inputBuffer chunk lines rest. apply onData_spec.
  unfold lines, rest. now destruct (onData inputBuffer chunk).
Qed.

(** X2.  Frames that arrive in pieces are reassembled: feeding two chunks
    one after the other hands on the same lines, in the same order, and
    keeps the same buffer as feeding their concatenation at once. *)
Theorem onData_chunking_is_irrelevant :
  forall inputBuffer chunk1 chunk2,
    let first := onData inputBuffer chunk1 in
    let second := onData (snd first) chunk2 in
    onData inputBuffer (chunk1 ++ chunk2) =
    (fst first ++ fst second, snd second).
Proof.
  intros b c1 c2 first second.
  destruct first as [l1 r1] eqn:E1. cbn [fst snd] in *.
  destruct second as [l2 r2] eqn:E2. cbn [fst snd].
  destruct (onData_spec _ _ _ _ E1) as (A1 & B1 & C1).
  destruct (onData_spec _ _ _ _ E2) as (A2 & B2 & C2).
  destruct (onData b (c1 ++ c2)) as [l r] eqn:E.
  destruct (onData_spec _ _ _ _ E) as (A & B & C).
  assert (H : unsplit l r = unsplit (l1 ++ l2) r2).
  { rewrite A, unsplit_app, A2, <- unsplit_append, A1.
    symmetry. apply append_assoc. }
  assert (B12 : Forall noNewline (l1 ++ l2)) by (apply Forall_app; auto).
  destruct (unsplit_unique _ _ _ _ B C B12 C2 H) as [-> ->].
  reflexivity.
Qed.

End FramingFacts.

(** ** auto_port_bridge.js: local methods, bind attempts, [cleanup] *)

Module AutoPortBridgeMoreFacts.
Import AutoPortBridge AutoPortBridgeMore JSMapFacts AutoPortBridgeFacts.
Import Scenarios MoreScenarios.


Lemma scanPorts_ports bind : forall fuel attempt port st st' effects outcome,
  scanPorts bind fuel attempt port st = (st', effects, outcome) ->
  exists n, (n <= fuel)%nat /\ portsTried effects = consecutive port n.
Proof.
  induction fuel as [|fuel IH]; intros attempt port st st' effects outcome E;
    simpl in E.
  - injection E as <- <- <-. exists O. split; [lia | reflexivity].
  - destruct (bind attempt port).
    + injection E as <- <- <-. exists 1%nat. split; [lia | reflexivity].
    + injection E as <- <- <-. exists 1%nat. split; [lia | reflexivity].
    + destruct (scanPorts bind fuel (S attempt) (port + 1)
                  (mkPortState (currentPort st) (Some port) (portFile st)
                     (isShuttingDown st))) as [[st1 eff1] out1] eqn:E1.
      injection E as <- <- <-.
      destruct (IH _ _ _ _ _ _ E1) as [n [Hn Hp]].
      exists (S n). split; [lia|]. simpl. now rewrite Hp.
Qed.

Lemma In_consecutive p port n :
  In p (consecutive port n) -> port <= p < port + Z.of_nat n.
Proof.
  revert port. induction n as [|n IH]; intros port; simpl; [tauto|].
  intros [<-|H]; [lia|]. apply IH in H. lia.
Qed.

Lemma NoDup_consecutive port n : NoDup (consecutive port n).
Proof.
  revert port. induction n as [|n IH]; intros port; simpl; constructor.
  - intros H. apply In_consecutive in H. lia.
  - apply IH.
Qed.


(** X4.  One call of createServer tries the ports from its first
    candidate upwards, one after the other and each at most once: it never
    goes back to a port below the first candidate (the saved port, when
    there is one in range) and never beyond 27135, whatever the bind
    attempts report. *)
Theorem createServer_tries_consecutive_ports :
  forall bind st,
    let first := currentPort (loadLastSuccessfulPort st) in
    let effects := snd (fst (createServer bind st)) in
    (exists n, portsTried effects = consecutive first n /\
               (Z.of_nat n <= Z.max 0 (snd PORT_RANGE - first + 1))) /\
    NoDup (portsTried effects) /\
    (forall p, In p (portsTried effects) -> first <= p <= snd PORT_RANGE).
Proof.
  intros bind st first effects.
  assert (H : exists n, portsTried effects = consecutive first n /\
               (Z.of_nat n <= Z.max 0 (snd PORT_RANGE - first + 1))).
  { unfold effects, createServer. destruct (isShuttingDown st).
    - exists O. split; [reflexivity | simpl; lia].
    - fold first.
      destruct (scanPorts bind (portsLeft first) 0 first
                  (loadLastSuccessfulPort st)) as [[st' eff] out] eqn:E.
      destruct (scanPorts_ports _ _ _ _ _ _ _ _ E) as [n [Hn Hp]].
      exists n. split; [exact Hp|]. unfold portsLeft in Hn. simpl in *. lia. }
  destruct H as [n [Hp Hn]].
  split; [eauto|]. rewrite Hp. split; [apply NoDup_consecutive|].
  intros p Hin. apply In_consecutive in Hin. lia.
Qed.




Lemma cleanup_fold l : forall s,
  fold_left (fun s e => clearTimeout (timeout (snd e)) s) l s =
  set_timers
    (fold_left (fun t (e : Z * PendingRequest) =>
                  JSMap.delete (timeout (snd e)) t) l (timers s)) s.
Proof.
  induction l as [|e l IH]; intros s; simpl.
  - now destruct s.
  - rewrite IH. reflexivity.
Qed.

Lemma fold_delete_handles (l : list (Z * PendingRequest)) :
  (forall id e, In (id, e) l -> timeout e = id) ->
  forall t : list (Z * Z),
    fold_left (fun t e => JSMap.delete (timeout (snd e)) t) l t =
    fold_left (fun t e => JSMap.delete (fst e) t) l t.
Proof.
  induction l as [|[id e] l IH]; intros H t; simpl; [reflexivity|].
  rewrite (H id e) by now left.
  apply IH. intros id' e' Hin. apply H. now right.
Qed.

(** X6.  cleanup answers nobody: in every state the bridge can reach it
    clears the timer of every pending request, so that none is armed
    afterwards, but it rejects no promise and writes no line; the pending
    requests stay in the table, and their callers get neither a result
    nor an error from the shutdown. *)
Theorem cleanup_leaves_pending_requests_unanswered :
  forall events,
    let s := run initialState events in
    timers (cleanup s) = [] /\
    pendingRequests (cleanup s) = pendingRequests s /\
    stdout (cleanup s) = stdout s /\
    settled (cleanup s) = settled s /\
    socketOut (cleanup s) = socketOut s.
Proof.
  intros events s.
  pose proof (Invariant_reachable events) as I. fold s in I.
  unfold cleanup. rewrite cleanup_fold.
  rewrite (fold_delete_handles (pendingRequests s))
    by (intros id e Hin; exact (proj1 (inv_entries s I id e Hin))).
  rewrite (delete_all_keys (pendingRequests s) (timers s)
             (inv_pending_nodup s I) (inv_timers s I)).
  repeat split.
Qed.

End AutoPortBridgeMoreFacts.

(** ** auto_service.js: shutdown and signalled exits *)

Module SupervisorMoreFacts.
Import AutoService AutoServiceMore.
Import Scenarios.

Lemma step_after_shutdown s e :
  shutdownRequested s = true ->
  shutdownRequested (step s e) = true /\
  spawned (step s e) = spawned s /\
  (forall t, In (t, RestartBridge) (timers (step s e)) ->
             In (t, RestartBridge) (timers s)) /\
  (forall t, In (t, CooldownOver) (timers (step s e)) ->
             In (t, CooldownOver) (timers s)).
Proof.
  intros H. destruct e as [t what]. unfold step.
  destruct (t <? now s); [auto|].
  destruct what as [pid signal|timer|].
  - simpl. destruct (isProcessRunning pid (set_now t s)); simpl.
    + unfold onExit. simpl. rewrite H. simpl. auto.
    + auto.
  - simpl.
    assert (K : forall k l rest, takeDue k t l = Some rest ->
                forall x, In x rest -> In x l).
    { induction l as [|[due k'] l IH]; intros rest E x Hx; simpl in E;
        [discriminate|].
      destruct (timerEqb k' k && (due <=? t)).
      - injection E as <-. now right.
      - destruct (takeDue k t l) as [r|]; [|discriminate].
        injection E as <-. destruct Hx as [<-|Hx]; [now left|].
        right. eapply IH; eauto. }
    destruct (takeDue timer t (timers s)) as [rest|] eqn:E; [|simpl; auto].
    destruct timer; unfold onTimer, startBridge; simpl; rewrite H; simpl;
      repeat split; auto; intros; eapply K; eauto.
  - simpl. destruct (nextHealthCheck s <=? t); [|simpl; auto].
    unfold onHealthCheck. simpl. rewrite H. simpl. auto.
Qed.

Lemma run_after_shutdown events : forall s,
  shutdownRequested s = true ->
  shutdownRequested (run s events) = true /\
  spawned (run s events) = spawned s.
Proof.
  induction events as [|e events IH]; intros s H; simpl; [auto|].
  destruct (step_after_shutdown s e H) as (A & B & _).
  destruct (IH (step s e) A) as (C & D). split; [exact C | congruence].
Qed.

(** X9.  Once cleanup has requested the shutdown, no bridge is started
    any more, whatever happens afterwards: a bridge exiting with or
    without a signal, a restart or cooldown timer that was armed before,
    a health check tick.  The flag stays set and startBridge returns
    null. *)
Theorem no_restart_after_cleanup :
  forall s events,
    spawned (run (fst (cleanup s)) events) = spawned s /\
    shutdownRequested (run (fst (cleanup s)) events) = true /\
    snd (startBridge (run (fst (cleanup s)) events)) = None.
Proof.
  intros s events.
  destruct (run_after_shutdown events (fst (cleanup s)) eq_refl) as (A & B).
  split; [exact B|]. split; [exact A|].
  unfold startBridge. now rewrite A.
Qed.

Lemma not_running_after_exit pid l :
  existsb (Nat.eqb pid) (filter (fun p => negb (Nat.eqb p pid)) l) = false.
Proof.
  induction l as [|x l IH]; simpl; [reflexivity|].
  destruct (Nat.eqb x pid) eqn:E; simpl; [exact IH|].
  rewrite Nat.eqb_sym, E. exact IH.
Qed.

(** X10.  A bridge that exits on SIGTERM or SIGINT is not restarted by
    its 'exit' listener, which arms no timer and only counts the exit;
    the next health check tick finds the process gone and starts a new
    bridge all the same (while fewer than five restarts are counted). *)
Theorem signalled_bridge_is_restarted_by_health_check :
  forall s pid signal t1 t2,
    shutdownRequested s = false ->
    bridgeProcess s = Some pid ->
    isProcessRunning pid s = true ->
    signal = SIGTERM \/ signal = SIGINT ->
    now s <= t1 <= t2 ->
    nextHealthCheck s <= t2 ->
    restartCount s + 1 < MAX_RESTARTS ->
    let s1 := step s (t1, ChildExit pid signal) in
    let s2 := step s1 (t2, HealthCheck) in
    timers s1 = timers s /\
    spawned s1 = spawned s /\
    restartCount s1 = restartCount s + 1 /\
    spawned s2 = spawned s ++ [(t2, nextPid s)] /\
    bridgeProcess s2 = Some (nextPid s).
Proof.
  intros s pid signal t1 t2 Hs Hb Hr Hsig Ht Hh Hc s1 s2.
  assert (E1 : s1 =
    mkState t1 (Some pid) (restartCount s + 1) t1 false (timers s)
      (nextHealthCheck s)
      (filter (fun p => negb (Nat.eqb p pid)) (running s)) (nextPid s)
      (spawned s)).
  { unfold s1, step.
    replace (t1 <? now s) with false by (symmetry; apply Z.ltb_ge; lia).
    replace (isProcessRunning pid (set_now t1 s)) with true by (now rewrite <- Hr).
    unfold onExit. simpl. rewrite Hs, Hb.
    destruct Hsig as [-> | ->]; reflexivity. }
  split; [now rewrite E1|]. split; [now rewrite E1|]. split; [now rewrite E1|].
  unfold s2. rewrite E1. unfold step. simpl.
  replace (t2 <? t1) with false by (symmetry; apply Z.ltb_ge; lia).
  replace (nextHealthCheck s <=? t2) with true by (symmetry; apply Z.leb_le; lia).
  unfold onHealthCheck, isProcessRunning, startBridge. simpl.
  rewrite not_running_after_exit.
  replace (MAX_RESTARTS <=? restartCount s + 1) with false
    by (symmetry; apply Z.leb_gt; lia).
  simpl. split; reflexivity.
Qed.

Lemma signalled_bridge_is_restarted_by_health_check_witness :
  timers (step (main startTime) (startTime + 5000, ChildExit 0%nat SIGTERM)) =
    timers (main startTime) /\
  spawned (step (main startTime) (startTime + 5000, ChildExit 0%nat SIGTERM)) =
    spawned (main startTime) /\
  restartCount
    (step (main startTime) (startTime + 5000, ChildExit 0%nat SIGTERM)) =
    restartCount (main startTime) + 1 /\
  spawned
    (step (step (main startTime) (startTime + 5000, ChildExit 0%nat SIGTERM))
       (startTime + 10000, HealthCheck)) =
    spawned (main startTime) ++ [(startTime + 10000, nextPid (main startTime))] /\
  bridgeProcess
    (step (step (main startTime) (startTime + 5000, ChildExit 0%nat SIGTERM))
       (startTime + 10000, HealthCheck)) =
    Some (nextPid (main startTime)).
Proof.
  apply (signalled_bridge_is_restarted_by_health_check (main startTime) 0%nat
           SIGTERM (startTime + 5000) (startTime + 10000)).
  - reflexivity.
  - reflexivity.
  - reflexivity.
  - now left.
  - unfold main, startTime. simpl. lia.
  - unfold main, startTime, CHECK_INTERVAL. simpl. lia.
  - unfold main, MAX_RESTARTS. simpl. lia.
Defined.
End SupervisorMoreFacts.

(** ** main.ts: the answers of the plugin *)

Module PluginSocketFacts.
Import AutoPortBridge.
Import PluginSocket.
Import Scenarios MoreScenarios.
Local Open Scope string_scope.

Section Environment.
Variable stringify : JS.Value -> string.
Variable timestamp : nat -> string.


Lemma onmessage_request_reply :
  forall dom message st st' reply,
    isRequest message = true ->
    onmessage stringify timestamp dom (Some message) st = Some (st', reply) ->
    (exists result,
       reply = JS.Obj [("jsonrpc", JS.Str "2.0");
                       ("id", callerId message); ("result", result)]) \/
    (exists error,
       error <> "" /\
       reply = JS.Obj [("jsonrpc", JS.Str "2.0");
                       ("id", callerId message);
                       ("error", JS.Obj [("code", JS.Num (-32603));
                                         ("message", JS.Str error)])]).
Proof.
  intros dom message st st' reply R E. unfold onmessage in E.
  destruct (executeCommand stringify timestamp dom message _)
    as [[st1 [result|error]]|] eqn:X; [| |discriminate];
    rewrite (AutoPortBridgeFacts.prop_id_request _ R) in E;
    injection E as <- <-.
  - left. eauto.
  - right. destruct (error =? "") eqn:Q.
    + eexists. split; [|reflexivity]. discriminate.
    + exists error. split; [|reflexivity]. now apply String.eqb_neq.
Qed.






(** X14.  A tools/call carried through both programs: when the bridge,
    in any state it can reach with a plugin connected, forwards a call
    and the plugin answers the forwarded frame, the bridge writes exactly
    one line for the caller and is left with as many pending requests as
    before.  The line carries the result of the plugin under the
    identifier of the caller (0 when that identifier is falsy), or the
    error message of the plugin under the identifier of the caller. *)
Theorem tool_call_end_to_end :
  forall events m ws params name arguments dom pst pst' reply,
    let s := run initialState events in
    obsidianConnection s = Some ws ->
    JS.prop m "method" = Some (JS.Str "tools/call") ->
    JS.prop m "params" = Some params ->
    JS.prop params "name" = Some name ->
    JS.prop params "arguments" = Some arguments ->
    onmessage stringify timestamp dom
      (Some (JS.Obj [("id", JS.Num (nextRequestId s)); ("name", name);
                     ("arguments", JS.or arguments (JS.Obj []));
                     ("jsonrpc", JS.Str "2.0")])) pst = Some (pst', reply) ->
    let s' := run s [Stdin m; WsMessage ws (Some reply)] in
    JSMap.size (pendingRequests s') = JSMap.size (pendingRequests s) /\
    ((exists result,
        JS.prop reply "result" = Some result /\
        JS.prop reply "error" = Some JS.Undefined /\
        stdout s' =
          (stdout s ++
           [responseFrame
              (if JS.truthy (callerId m) then callerId m else JS.Num 0)
              result])%list) \/
     (exists error,
        JS.prop reply "error" =
          Some (JS.Obj [("code", JS.Num (-32603)); ("message", JS.Str error)]) /\
        stdout s' = (stdout s ++ [errorFrame (callerId m) error])%list)).
Proof.
  intros events m ws params name arguments dom pst pst' reply s
         Hc Hm Hp Hn Ha Hreply s'.
  pose proof (fun R => onmessage_request_reply _ _ _ _ _ R Hreply) as Hshape.
  specialize (Hshape eq_refl).
  change (callerId _) with (JS.Num (nextRequestId s)) in Hshape.
  assert (Hid : JS.prop reply "id" = Some (JS.Num (nextRequestId s)))
    by (destruct Hshape as [[result ->]|[error [_ ->]]]; reflexivity).
  pose proof (AutoPortBridgeFacts.Invariant_reachable events) as Hinv.
  fold s in Hinv.
  assert (Hsize : forall error result,
            JS.prop reply "error" = Some error ->
            JS.prop reply "result" = Some result ->
            JSMap.size (pendingRequests s') = JSMap.size (pendingRequests s)).
  { intros error result He Hr.
    pose proof (AutoPortBridgeFacts.count_run
                  [Stdin m; WsMessage ws (Some reply)] s Hinv) as C.
    fold s' in C. unfold answeredOrPending in C.
    destruct (Translator.tools_call_roundtrip s m ws params name arguments
                reply error result Hinv Hc Hm Hp Hn Ha Hid He Hr)
      as (_ & _ & _ & D).
    change (step (step s (Stdin m)) (WsMessage ws (Some reply))) with s' in D.
    rewrite D, length_app in C.
    assert (R : isRequest m = true)
      by (destruct m; try discriminate; reflexivity).
    unfold requestsIn in C. simpl in C. rewrite R in C. simpl in C. lia. }
  destruct Hshape as [[result ->]|[error [Hne ->]]].
  - split; [eapply Hsize; reflexivity|]. left. exists result.
    split; [reflexivity|]. split; [reflexivity|].
    destruct (Translator.tools_call_roundtrip s m ws params name arguments
                _ JS.Undefined result Hinv Hc Hm Hp Hn Ha Hid eq_refl
                eq_refl) as (_ & _ & _ & D).
    exact D.
  - split; [eapply Hsize; reflexivity|]. right. exists error.
    split; [reflexivity|].
    destruct (Translator.tools_call_roundtrip s m ws params name arguments
                _ _ JS.Undefined Hinv Hc Hm Hp Hn Ha Hid eq_refl
                eq_refl) as (_ & _ & _ & D).
    unfold s', run. cbn [fold_left].
    rewrite D. cbn [JS.truthy replyFrame]. unfold responseErrorMessage.
    cbn [JS.typeof_object JS.prop JS.lookup String.eqb Ascii.eqb Bool.eqb
         JS.Error_message JS.String].
    reflexivity.
Qed.

End Environment.




Lemma tool_call_end_to_end_witness :
  JSMap.size
    (pendingRequests
       (run (run initialState connected)
          [Stdin (toolsCall (JS.Num 7));
           WsMessage 1%nat (Some (snd queryAnswer))])) =
  JSMap.size (pendingRequests (run initialState connected)) /\
  ((exists result,
      JS.prop (snd queryAnswer) "result" = Some result /\
      JS.prop (snd queryAnswer) "error" = Some JS.Undefined /\
      stdout
        (run (run initialState connected)
           [Stdin (toolsCall (JS.Num 7));
            WsMessage 1%nat (Some (snd queryAnswer))]) =
        (stdout (run initialState connected) ++
         [responseFrame
            (if JS.truthy (callerId (toolsCall (JS.Num 7)))
             then callerId (toolsCall (JS.Num 7)) else JS.Num 0)
            result])%list) \/
   (exists error,
      JS.prop (snd queryAnswer) "error" =
        Some (JS.Obj [("code", JS.Num (-32603)); ("message", JS.Str error)]) /\
      stdout
        (run (run initialState connected)
           [Stdin (toolsCall (JS.Num 7));
            WsMessage 1%nat (Some (snd queryAnswer))]) =
        (stdout (run initialState connected) ++
         [errorFrame (callerId (toolsCall (JS.Num 7))) error])%list)).
Proof.
  apply (tool_call_end_to_end sameText tick connected (toolsCall (JS.Num 7))
           1%nat
           (JS.Obj [("name", JS.Str "query_elements");
                    ("arguments", JS.Obj [("selector", JS.Str "div")])])
           (JS.Str "query_elements") (JS.Obj [("selector", JS.Str "div")])
           emptyPage pluginStart (fst queryAnswer) (snd queryAnswer)).
  - reflexivity.
  - reflexivity.
  - reflexivity.
  - reflexivity.
  - reflexivity.
  - reflexivity.
Defined.

End PluginSocketFacts.

(** ** main.ts: the ports of the plugin *)

Module PluginConnectionFacts.
Import PluginConnection.

Lemma indexOfPort_spec port :
  (validPort port /\ indexOfPort port WS_PORTS = port - 27125) \/
  (~ validPort port /\ indexOfPort port WS_PORTS = -1).
Proof.
  unfold validPort, WS_PORTS. cbn [seq map Z.of_nat Pos.of_succ_nat Pos.succ Z.add Pos.add Pos.add_carry indexOfPort].
  repeat match goal with
  | |- context [?a =? port] =>
      destruct (a =? port) eqn:?;
      [ match goal with H : (_ =? _) = true |- _ => apply Z.eqb_eq in H end
      | match goal with H : (_ =? _) = false |- _ => apply Z.eqb_neq in H end ]
  end; simpl; try (left; split; lia); right; split; lia.
Qed.

Lemma portAt_valid index :
  0 <= index <= 10 -> portAt index = Some (27125 + index).
Proof.
  intros H. unfold portAt.
  replace (index <? 0) with false by (symmetry; apply Z.ltb_ge; lia).
  assert (D : index = 0 \/ index = 1 \/ index = 2 \/ index = 3 \/ index = 4 \/
              index = 5 \/ index = 6 \/ index = 7 \/ index = 8 \/ index = 9 \/
              index = 10) by lia.
  repeat destruct D as [->|D]; try subst; reflexivity.
Qed.

Lemma nextIndex_bounds st :
  0 <= currentPortIndex st <= 10 -> 0 <= nextIndex st <= 10.
Proof.
  intros H. unfold nextIndex.
  destruct (lastActivePort st); [exact H|].
  destruct (savedPort st) as [port|]; [|exact H].
  destruct (indexOfPort_spec port) as [[V ->]|[_ ->]]; unfold validPort in *.
  - replace (0 <=? port - 27125) with true by (symmetry; apply Z.leb_le; lia).
    lia.
  - exact H.
Qed.

Lemma Forall_setSocket {P : option Z * SocketState -> Prop} id x l :
  Forall P l -> P x -> Forall P (setSocket id x l).
Proof.
  intros Hl Hx. unfold setSocket. apply Forall_app. split.
  - rewrite Forall_forall in *. intros y Hy. apply Hl.
    eapply In_nth_error in Hy. destruct Hy as [n Hy].
    apply nth_error_In with (n := n).
    rewrite nth_error_firstn in Hy.
    destruct (n <? id)%nat; [exact Hy | discriminate].
  - constructor; [exact Hx|].
    rewrite Forall_forall in *. intros y Hy. apply Hl.
    rewrite <- (firstn_skipn (S id) l). apply in_or_app. now right.
Qed.

Lemma connectToServer_eq throws st :
  connectToServer throws st =
  if reconnecting st then st
  else if throws then
    mkState (Z.rem (nextIndex st + 1) 11) (lastActivePort st)
      (if 10 <? attemptCount st then 0 else attemptCount st)
      false (savedPort st) (sockets st) (Some (AfterFailure (attemptCount st)))
  else
    mkState (nextIndex st) (lastActivePort st) (attemptCount st) true
      (savedPort st) (sockets st ++ [(portAt (nextIndex st), CONNECTING)])
      (reconnectTimeout st).
Proof. reflexivity. Qed.

Lemma onclose_cases id st :
  onclose id st = st \/
  exists port,
    In port (map fst (sockets st)) /\
    onclose id st =
    mkState
      match lastActivePort st with
      | Some last => indexOfLast last
      | None => currentPortIndex st
      end (lastActivePort st)
      (if 10 <? attemptCount st + 1 then 0 else attemptCount st + 1)
      (reconnecting st) (savedPort st)
      (setSocket id (port, CLOSED) (sockets st))
      (Some (AfterClose (attemptCount st))).
Proof.
  unfold onclose.
  destruct (nth_error (sockets st) id) as [[port []]|] eqn:E; auto;
    right; exists port; (split; [|reflexivity]);
    apply nth_error_In in E; apply (in_map fst) in E; exact E.
Qed.

Lemma onopen_cases id st :
  onopen id st = st \/
  exists port,
    In port (map fst (sockets st)) /\
    onopen id st =
    mkState (currentPortIndex st) (Some port) 0 false
      (match port with Some _ => port | None => savedPort st end)
      (setSocket id (port, OPEN) (sockets st)) (reconnectTimeout st).
Proof.
  unfold onopen.
  destruct (nth_error (sockets st) id) as [[port []]|] eqn:E; auto.
  right; exists port; (split; [|reflexivity]).
  apply nth_error_In in E; apply (in_map fst) in E; exact E.
Qed.

Lemma onTimer_cases throws st :
  onTimer throws st = st \/
  exists flag,
    onTimer throws st =
    connectToServer throws
      (mkState (currentPortIndex st) (lastActivePort st) (attemptCount st)
         flag (savedPort st) (sockets st) None).
Proof.
  unfold onTimer. destruct (reconnectTimeout st) as [[e|e]|]; eauto.
Qed.

Lemma Bounded_connect throws st : Bounded st -> Bounded (connectToServer throws st).
Proof.
  intros [H1 H2 H3 H4 H5]. rewrite connectToServer_eq.
  destruct (reconnecting st); [constructor; assumption|].
  pose proof (nextIndex_bounds st H1) as Hn.
  destruct throws; constructor; simpl; auto.
  - pose proof (Z.rem_bound_pos (nextIndex st + 1) 11 ltac:(lia) ltac:(lia)).
    lia.
  - destruct (10 <? attemptCount st); lia.
  - intros r [= <-]. simpl. lia.
  - apply Forall_app. split; [assumption|]. constructor; [|constructor].
    simpl. rewrite portAt_valid by lia. eexists. split; [reflexivity|].
    unfold validPort. lia.
Qed.

Lemma Bounded_step st e : Bounded st -> Bounded (step st e).
Proof.
  intros B. destruct e as [throws|id|id|throws]; simpl.
  - now apply Bounded_connect.
  - destruct (onopen_cases id st) as [->|[port [Hin ->]]]; [exact B|].
    destruct B as [H1 H2 H3 H4 H5].
    assert (V : exists p, port = Some p /\ validPort p).
    { apply in_map_iff in Hin. destruct Hin as [x [<- Hin]].
      rewrite Forall_forall in H4. exact (H4 _ Hin). }
    constructor; simpl; auto; try lia.
    + intros p [= <-]. exact V.
    + apply Forall_setSocket; [assumption|]. exact V.
  - destruct (onclose_cases id st) as [->|[port [Hin ->]]]; [exact B|].
    destruct B as [H1 H2 H3 H4 H5].
    assert (I : 0 <= match lastActivePort st with
                     | Some last => indexOfLast last
                     | None => currentPortIndex st
                     end <= 10).
    { destruct (lastActivePort st) as [last|]; [|exact H1].
      destruct (H3 last eq_refl) as [p [-> V]]. unfold indexOfLast.
      destruct (indexOfPort_spec p) as [[_ ->]|[V' _]]; [|tauto].
      unfold validPort in V. lia. }
    constructor;
      cbn [currentPortIndex attemptCount lastActivePort sockets
           reconnectTimeout]; auto.
    + destruct (10 <? attemptCount st + 1) eqn:Q; [lia|].
      apply Z.ltb_ge in Q. lia.
    + apply Forall_setSocket; [assumption|]. simpl.
      apply in_map_iff in Hin. destruct Hin as [x [<- Hin]].
      rewrite Forall_forall in H4. exact (H4 _ Hin).
    + intros r [= <-]. simpl. lia.
  - destruct (onTimer_cases throws st) as [->|[flag ->]]; [exact B|].
    apply Bounded_connect. destruct B as [H1 H2 H3 H4 H5].
    constructor; simpl; auto; discriminate.
Qed.

Lemma Bounded_initial saved : Bounded (initialState saved).
Proof.
  constructor; simpl; try lia; try discriminate. constructor.
Qed.

Lemma Bounded_run events : forall st, Bounded st -> Bounded (run st events).
Proof.
  induction events as [|e events IH]; intros st B; simpl; [exact B|].
  apply IH. now apply Bounded_step.
Qed.

Lemma homePort_valid saved : validPort (homePort saved).
Proof.
  unfold homePort. destruct saved as [port|]; [|unfold validPort; lia].
  destruct (indexOfPort_spec port) as [[V ->]|[_ ->]].
  - unfold validPort in *.
    replace (0 <=? port - 27125) with true by (symmetry; apply Z.leb_le; lia).
    exact V.
  - simpl. unfold validPort; lia.
Qed.

Lemma portAt_indexOfPort port :
  validPort port -> portAt (indexOfPort port WS_PORTS) = Some port.
Proof.
  intros V. destruct (indexOfPort_spec port) as [[_ ->]|[V' _]]; [|tauto].
  unfold validPort in V. rewrite portAt_valid by lia. f_equal. lia.
Qed.

Lemma Settled_initial saved : Settled (homePort saved) (initialState saved).
Proof.
  constructor;
    cbn [initialState currentPortIndex lastActivePort sockets];
    try discriminate; try constructor; try congruence.
  unfold nextIndex, homePort.
  cbn [initialState currentPortIndex lastActivePort savedPort].
  destruct saved as [port|]; [|reflexivity].
  destruct (indexOfPort_spec port) as [[V E]|[_ E]]; rewrite E.
  - unfold validPort in V.
    replace (0 <=? port - 27125) with true by (symmetry; apply Z.leb_le; lia).
    rewrite portAt_valid by lia. f_equal. lia.
  - reflexivity.
Qed.

Lemma Settled_connect home st :
  Settled home st -> Settled home (connectToServer false st).
Proof.
  intros [H1 H2 H3 H4]. rewrite connectToServer_eq.
  destruct (reconnecting st); [constructor; assumption|].
  constructor;
    cbn [currentPortIndex attemptCount lastActivePort sockets
         reconnectTimeout]; auto.
  - unfold nextIndex in *.
    cbn [currentPortIndex lastActivePort savedPort].
    destruct (lastActivePort st); [exact H1|].
    destruct (savedPort st) as [port|]; [|exact H1].
    destruct (0 <=? indexOfPort port WS_PORTS); exact H1.
  - apply Forall_app. split; [assumption|]. constructor; [|constructor].
    exact H1.
Qed.

Lemma Settled_step home st e :
  validPort home ->
  match e with Load throws | TimerFires throws => throws = false | _ => True end ->
  Settled home st -> Settled home (step st e).
Proof.
  intros V He S. destruct e as [throws|id|id|throws]; simpl.
  - subst. now apply Settled_connect.
  - destruct (onopen_cases id st) as [->|[port [Hin ->]]]; [exact S|].
    destruct S as [H1 H2 H3 H4].
    assert (P : port = Some home).
    { apply in_map_iff in Hin. destruct Hin as [x [<- Hin]].
      rewrite Forall_forall in H4. exact (H4 _ Hin). }
    assert (N : sockets st <> []).
    { intros Q. rewrite Q in Hin. exact Hin. }
    constructor;
      cbn [currentPortIndex attemptCount lastActivePort sockets
           reconnectTimeout].
    + unfold nextIndex. cbn [currentPortIndex lastActivePort savedPort]. auto.
    + auto.
    + intros last [= <-]. exact P.
    + apply Forall_setSocket; [assumption|]. exact P.
  - destruct (onclose_cases id st) as [->|[port [Hin ->]]]; [exact S|].
    destruct S as [H1 H2 H3 H4].
    assert (P : port = Some home).
    { apply in_map_iff in Hin. destruct Hin as [x [<- Hin]].
      rewrite Forall_forall in H4. exact (H4 _ Hin). }
    assert (N : sockets st <> []).
    { intros Q. rewrite Q in Hin. exact Hin. }
    assert (I : portAt match lastActivePort st with
                       | Some last => indexOfLast last
                       | None => currentPortIndex st
                       end = Some home).
    { destruct (lastActivePort st) as [last|]; [|auto].
      rewrite (H3 last eq_refl). unfold indexOfLast.
      now apply portAt_indexOfPort. }
    constructor;
      cbn [currentPortIndex attemptCount lastActivePort sockets
           reconnectTimeout].
    + unfold nextIndex in *. cbn [currentPortIndex lastActivePort savedPort].
      destruct (lastActivePort st) as [last|]; [exact I|exact H1].
    + auto.
    + exact H3.
    + apply Forall_setSocket; [assumption|]. exact P.
  - subst. destruct (onTimer_cases false st) as [->|[flag ->]]; [exact S|].
    apply Settled_connect. destruct S as [H1 H2 H3 H4].
    constructor; assumption.
Qed.

Lemma Settled_run home events :
  validPort home -> neverThrows events ->
  forall st, Settled home st -> Settled home (run st events).
Proof.
  intros V. induction events as [|e events IH]; intros N st S; simpl;
    [exact S|].
  apply IH; [exact (Forall_inv_tail N)|].
  apply Settled_step; [exact V | exact (Forall_inv N) | exact S].
Qed.

(** X15.  Whatever the order of connections, failures, closes and timers,
    the plugin's port index and attempt counter stay between 0 and 10,
    every socket it opens goes to one of the ports 27125 to 27135 (never to
    an undefined port), and the exponent of every reconnect delay is at
    most 10. *)
Theorem plugin_stays_within_its_ports :
  forall saved events,
    let st := run (initialState saved) events in
    0 <= currentPortIndex st <= 10 /\
    0 <= attemptCount st <= 10 /\
    Forall (fun x => exists port, fst x = Some port /\ 27125 <= port <= 27135)
      (sockets st) /\
    (forall r, reconnectTimeout st = Some r -> 0 <= timerExponent r <= 10).
Proof.
  intros saved events st.
  destruct (Bounded_run events _ (Bounded_initial saved)) as [H1 H2 H3 H4 H5].
  auto.
Qed.

(** X16.  As long as [new WebSocket] does not throw, the plugin never moves
    to another port: every socket it ever opens goes to the saved port when
    that is one of 27125 to 27135, and to 27125 otherwise, however often
    the connection fails or closes. *)
Theorem plugin_keeps_to_one_port :
  forall saved events,
    neverThrows events ->
    27125 <= homePort saved <= 27135 /\
    Forall (fun x => fst x = Some (homePort saved))
      (sockets (run (initialState saved) events)).
Proof.
  intros saved events N. split; [apply homePort_valid|].
  apply (Settled_run (homePort saved) events (homePort_valid saved) N
           _ (Settled_initial saved)).
Qed.

Lemma plugin_keeps_to_one_port_witness :
  27125 <= homePort (Some 27130) <= 27135 /\
  Forall (fun x => fst x = Some (homePort (Some 27130)))
    (sockets (run (initialState (Some 27130)) refusedTwice)).
Proof.
  apply plugin_keeps_to_one_port.
  unfold neverThrows, refusedTwice. repeat constructor.
Defined.

End PluginConnectionFacts.

(** ** main.ts: the console buffer as a window *)

Module ConsoleBufferFacts.
Import Scenarios MoreScenarios.

Lemma capture_skipn buffer m :
  (List.length buffer <= 1000)%nat ->
  Plugin.capture buffer m =
  skipn (List.length (buffer ++ [m]) - 1000) (buffer ++ [m]).
Proof.
  intros H. unfold Plugin.capture. rewrite length_app. simpl.
  destruct (1000 <? Z.of_nat (List.length buffer + 1)) eqn:E.
  - apply Z.ltb_lt in E.
    replace (List.length buffer + 1 - 1000)%nat with 1%nat by lia.
    destruct buffer; reflexivity.
  - apply Z.ltb_ge in E.
    replace (List.length buffer + 1 - 1000)%nat with 0%nat by lia.
    reflexivity.
Qed.

Lemma skipn_skipn_app {A} (l : list A) n m :
  skipn n (skipn m l) = skipn (m + n) l.
Proof.
  revert l. induction m as [|m IH]; intros l; simpl; [reflexivity|].
  destruct l; [now rewrite skipn_nil | apply IH].
Qed.

Lemma captures_skipn messages : forall buffer,
  (List.length buffer <= 1000)%nat ->
  fold_left Plugin.capture messages buffer =
  skipn (List.length (buffer ++ messages) - 1000) (buffer ++ messages).
Proof.
  induction messages as [|m ms IH]; intros buffer H; simpl.
  - rewrite app_nil_r.
    replace (List.length buffer - 1000)%nat with 0%nat by lia. reflexivity.
  - rewrite IH by now apply ConsoleCapture.capture_bound.
    rewrite capture_skipn by assumption.
    set (B := buffer ++ [m]).
    assert (HB : List.length B = (List.length buffer + 1)%nat)
      by (unfold B; rewrite length_app; reflexivity).
    replace (buffer ++ m :: ms) with (B ++ ms)
      by (unfold B; now rewrite <- app_assoc).
    replace (skipn (List.length B - 1000) B ++ ms)
      with (skipn (List.length B - 1000) (B ++ ms)).
    2:{ rewrite skipn_app.
        replace (List.length B - 1000 - List.length B)%nat with 0%nat by lia.
        reflexivity. }
    rewrite length_skipn, skipn_skipn_app. f_equal.
    rewrite length_app. lia.
Qed.

(** X7.  The console buffer is a sliding window: after any number of
    console calls it holds exactly the last 1000 messages captured, oldest
    first, and all of them while fewer than 1000 were captured. *)
Theorem consoleMessages_are_the_last_1000 :
  forall messages,
    fold_left Plugin.capture messages [] =
    skipn (List.length messages - 1000) messages.
Proof. intros messages. now rewrite captures_skipn by (simpl; lia). Qed.

(** X8.  With a limit between 1 and 1000, getConsoleLogs returns the
    newest [limit] of all the messages ever captured, oldest first, and
    all of them when fewer were captured. *)
Theorem getConsoleLogs_returns_newest_captured :
  forall messages limit,
    0 < limit <= 1000 ->
    Plugin.getConsoleLogs (fold_left Plugin.capture messages []) (Some limit) =
    skipn (List.length messages - Z.to_nat limit) messages.
Proof.
  intros messages limit H.
  destruct (ConsoleCapture.getConsoleLogs_positive
              (fold_left Plugin.capture messages []) limit) as [E _]; [lia|].
  rewrite E, captures_skipn by (simpl; lia). simpl app.
  rewrite length_skipn, skipn_skipn_app.
  f_equal. lia.
Qed.

Lemma getConsoleLogs_returns_newest_captured_witness :
  Plugin.getConsoleLogs (fold_left Plugin.capture threeMessages []) (Some 2) =
  skipn (List.length threeMessages - Z.to_nat 2) threeMessages.
Proof.
  apply (getConsoleLogs_returns_newest_captured threeMessages 2). lia.
Defined.
End ConsoleBufferFacts.

(** ** service.js: the relay and the restarts *)

Module ServiceFacts.
Import Ascii.
Import Framing FramingFacts Service ServiceScenarios.

Section Parser.
Variable parse : string -> option JS.Value.

Lemma get_set_same {V} k (v : V) m : JSMap.get k (JSMap.set k v m) = Some v.
Proof.
  induction m as [|[k' v'] m IH]; simpl.
  - now rewrite Z.eqb_refl.
  - destruct (k' =? k) eqn:E; simpl; rewrite E; [reflexivity | exact IH].
Qed.

Lemma accepted_parses sent l : accepted parse sent l = true -> parses parse l = true.
Proof. unfold accepted, parses. now destruct (parse l). Qed.

(** When every line that parses passes the checks, the loop is the line
    splitter followed by the removal of the lines that do not parse. *)
Lemma relayResponses_all : forall fuel sent buffer lines rest,
  takeLines fuel buffer = (lines, rest) ->
  (forall l, In l lines -> parses parse l = true ->
             accepted parse sent l = true) ->
  relayResponses parse fuel sent buffer =
  (filter (parses parse) lines,
   map (idOf parse) (filter (parses parse) lines), rest).
Proof.
  induction fuel as [|fuel IH]; intros sent buffer lines rest E H; simpl in *.
  - now injection E as <- <-.
  - destruct (indexOf newline buffer) as [i|]; [|now injection E as <- <-].
    destruct (takeLines fuel (sliceFrom (i + 1) buffer)) as [ls r] eqn:T.
    injection E as <- <-.
    specialize (IH sent _ _ _ T (fun l Hl => H l (or_intror Hl))).
    pose proof (H (slice 0 i buffer) (or_introl eq_refl)) as H0.
    unfold parses, accepted, idOf in *. simpl.
    destruct (parse (slice 0 i buffer)) as [parsed|] eqn:P.
    + rewrite (H0 eq_refl), IH. simpl. unfold idOf. rewrite P. reflexivity.
    + exact IH.
Qed.

(** A line that parses and fails a check ends the loop: the complete
    lines behind it stay in the buffer. *)
Lemma relayResponses_stall : forall fuel sent buffer pre bad post rest,
  (String.length buffer < fuel)%nat ->
  takeLines fuel buffer = (pre ++ bad :: post, rest) ->
  (forall l, In l pre -> parses parse l = true ->
             accepted parse sent l = true) ->
  parses parse bad = true ->
  accepted parse sent bad = false ->
  relayResponses parse fuel sent buffer =
  (filter (parses parse) pre, map (idOf parse) (filter (parses parse) pre),
   unsplit post rest).
Proof.
  induction fuel as [|fuel IH]; intros sent buffer pre bad post rest F E H B1 B2;
    [lia|].
  simpl in *.
  destruct (indexOf newline buffer) as [i|] eqn:I.
  2:{ injection E as E _. destruct pre; discriminate. }
  destruct (indexOf_split _ _ _ I) as (p & q & Hs & Hn & Hp & Hq & Hl).
  rewrite Hp, Hq in *.
  assert (Fq : (String.length q < fuel)%nat).
  { rewrite Hs, length_append in F. simpl in F. lia. }
  destruct (takeLines fuel q) as [ls r] eqn:T.
  injection E as E <-.
  destruct pre as [|l pre]; simpl in E; injection E as -> ->.
  - unfold parses, accepted in B1, B2.
    destruct (parse bad) as [parsed|]; [|discriminate].
    rewrite B2. simpl.
    destruct (takeLines_spec _ _ _ _ Fq T) as (A & _ & _).
    now rewrite A.
  - specialize (IH sent q pre bad post r Fq T
                  (fun x Hx => H x (or_intror Hx)) B1 B2).
    pose proof (H l (or_introl eq_refl)) as H0.
    unfold parses, accepted, idOf in *. simpl.
    destruct (parse l) as [parsed|] eqn:P.
    + rewrite (H0 eq_refl), IH. simpl. unfold idOf. rewrite P. reflexivity.
    + exact IH.
Qed.

Lemma relayResponses_accepted : forall fuel sent buffer lines ids rest,
  relayResponses parse fuel sent buffer = (lines, ids, rest) ->
  Forall (fun l => accepted parse sent l = true) lines.
Proof.
  induction fuel as [|fuel IH]; intros sent buffer lines ids rest E;
    simpl in E.
  - injection E as <- <- <-. constructor.
  - destruct (indexOf newline buffer) as [i|];
      [|injection E as <- <- <-; constructor].
    destruct (parse (slice 0 i buffer)) as [parsed|] eqn:P.
    + destruct (validResponse sent parsed) eqn:V;
        [|injection E as <- <- <-; constructor].
      destruct (relayResponses parse fuel sent (sliceFrom (i + 1) buffer))
        as [[ls ids1] r] eqn:R.
      injection E as <- <- <-. constructor.
      * unfold accepted. now rewrite P.
      * eapply IH; eauto.
    + eapply IH; eauto.
Qed.

Lemma setHas_false set v :
  setHas set v = false -> forall x, In x set -> sameValueZero x v = false.
Proof.
  unfold setHas. intros H x Hx.
  destruct (sameValueZero x v) eqn:E; [|reflexivity].
  assert (existsb (fun x => sameValueZero x v) set = true)
    by (apply existsb_exists; eauto).
  congruence.
Qed.

Lemma setHas_incl set set' v :
  incl set set' -> setHas set' v = false -> setHas set v = false.
Proof.
  intros I H. unfold setHas in *.
  destruct (existsb (fun x => sameValueZero x v) set) eqn:E; [|reflexivity].
  apply existsb_exists in E. destruct E as [x [Hx Hv]].
  assert (existsb (fun x => sameValueZero x v) set' = true)
    by (apply existsb_exists; eauto).
  congruence.
Qed.

Lemma validResponse_incl set set' parsed :
  incl set set' ->
  validResponse set' parsed = true -> validResponse set parsed = true.
Proof.
  intros I. unfold validResponse.
  repeat match goal with
  | |- context [if ?b then false else _] => destruct b; [discriminate|]
  end.
  intros H. apply negb_true_iff in H. apply negb_true_iff.
  eapply setHas_incl; eauto.
Qed.

Lemma accepted_incl set set' l :
  incl set set' -> accepted parse set' l = true -> accepted parse set l = true.
Proof.
  intros I. unfold accepted. destruct (parse l); [|discriminate].
  now apply validResponse_incl.
Qed.

Lemma accepted_wellFormed set l :
  accepted parse set l = true -> wellFormed parse l.
Proof.
  unfold accepted, wellFormed. destruct (parse l) as [parsed|]; [|discriminate].
  unfold validResponse.
  destruct parsed as [| | | | |items|fields]; try discriminate.
  cbn [JS.typeof_object JS.is_null negb orb JS.prop].
  destruct (JS.lookup "jsonrpc" fields) as [| | | |v| |] eqn:J;
    try discriminate.
  cbn [isVersion2]. destruct (v =? "2.0")%string eqn:V; [|discriminate].
  apply String.eqb_eq in V. subst v. cbn [negb].
  destruct (hasKey "id" (JS.Obj fields)) eqn:K; [|discriminate].
  cbn [negb].
  destruct (hasKey "result" (JS.Obj fields)) eqn:R;
    destruct (hasKey "error" (JS.Obj fields)) eqn:Er;
    try discriminate; intros _; exists fields; auto.
Qed.

Lemma accepted_fresh set l parsed id :
  accepted parse set l = true -> parse l = Some parsed -> In id set ->
  sameValueZero id (responseId parsed) = false.
Proof.
  unfold accepted. intros A P I. rewrite P in A.
  unfold validResponse in A.
  repeat match type of A with
  | (if ?b then false else _) = true => destruct b; [discriminate|]
  end.
  apply negb_true_iff in A. eapply setHas_false; eauto.
Qed.

Lemma incl_setAdd set v : incl set (setAdd set v).
Proof.
  unfold setAdd. destruct (setHas set v); [apply incl_refl|].
  now apply incl_appl, incl_refl.
Qed.

(** What one event adds to the standard output. *)
Lemma step_stdout s e :
  exists later,
    stdout (step parse s e) = stdout s ++ later /\
    Forall (fun l => accepted parse (responsesSent s) l = true) later /\
    incl (responsesSent s) (responsesSent (step parse s e)).
Proof.
  destruct e as [bridge data|data|err|bridge signal|]; simpl.
  - unfold onBridgeData.
    destruct (JSMap.get bridge (bridgeOutputBuffer s)) as [buffer|].
    + destruct (relayResponses parse _ (responsesSent s) (buffer ++ data))
        as [[lines ids] rest] eqn:R.
      exists lines. simpl. split; [reflexivity|]. split; [|apply incl_refl].
      eapply relayResponses_accepted; eauto.
    + exists []. rewrite app_nil_r. repeat split; [constructor|apply incl_refl].
  - exists []. rewrite app_nil_r. repeat split; [constructor|apply incl_refl].
  - unfold onWritten. destruct (unacknowledged s) as [|id rest]; simpl;
      exists []; rewrite app_nil_r; (repeat split; [constructor|]);
      [apply incl_refl|].
    destruct err; [apply incl_refl | apply incl_setAdd].
  - destruct (isRunning bridge s);
      [destruct signal|]; simpl; exists []; rewrite app_nil_r;
      (repeat split; [constructor|apply incl_refl]).
  - destruct (timers s); simpl; exists []; rewrite app_nil_r;
      (repeat split; [constructor|apply incl_refl]).
Qed.

Lemma run_stdout events : forall s,
  exists later,
    stdout (run parse s events) = stdout s ++ later /\
    Forall (fun l => accepted parse (responsesSent s) l = true) later /\
    incl (responsesSent s) (responsesSent (run parse s events)).
Proof.
  induction events as [|e events IH]; intros s; simpl.
  - exists []. rewrite app_nil_r. repeat split; [constructor|apply incl_refl].
  - destruct (step_stdout s e) as (l1 & E1 & F1 & I1).
    destruct (IH (step parse s e)) as (l2 & E2 & F2 & I2).
    exists (l1 ++ l2). rewrite E2, E1, app_assoc.
    split; [reflexivity|]. split.
    + apply Forall_app. split; [exact F1|].
      eapply Forall_impl; [|exact F2]. intros l. now apply accepted_incl.
    + eapply incl_tran; eauto.
Qed.

(** X17.  Whatever the bridges write, and in whatever pieces, every line
    that service.js writes to its standard output is a JSON-RPC 2.0
    response: it parses to an object whose "jsonrpc" is "2.0", that has an
    "id", and that has a "result" or an "error". *)
Theorem relay_writes_only_wellformed_responses :
  forall events,
    Forall (wellFormed parse) (stdout (run parse main events)).
Proof.
  intros events. destruct (run_stdout events main) as (later & E & F & _).
  rewrite E. simpl. eapply Forall_impl; [|exact F].
  intros l. apply accepted_wellFormed.
Qed.

(** X18.  An identifier whose write has been acknowledged is not written
    again: from any state on, no line written later carries an identifier
    that equals, in the sense of [Set.prototype.has], one that is already
    in [responsesSent]. *)
Theorem acknowledged_identifier_is_not_written_again :
  forall s events,
    exists later,
      stdout (run parse s events) = stdout s ++ later /\
      forall line parsed id,
        In line later -> parse line = Some parsed ->
        In id (responsesSent s) ->
        sameValueZero id (responseId parsed) = false.
Proof.
  intros s events. destruct (run_stdout events s) as (later & E & F & _).
  exists later. split; [exact E|].
  intros line parsed id Hl Hp Hi. rewrite Forall_forall in F.
  eapply accepted_fresh; eauto.
Qed.


Lemma onBridgeData_eq bridge data s buffer :
  JSMap.get bridge (bridgeOutputBuffer s) = Some buffer ->
  forall lines ids rest,
    relayResponses parse (S (String.length (buffer ++ data))) (responsesSent s)
      (buffer ++ data) = (lines, ids, rest) ->
    stdout (step parse s (BridgeData bridge data)) = stdout s ++ lines /\
    unacknowledged (step parse s (BridgeData bridge data)) =
      unacknowledged s ++ ids /\
    JSMap.get bridge (bridgeOutputBuffer (step parse s (BridgeData bridge data)))
      = Some rest.
Proof.
  intros G lines ids rest R. simpl. unfold onBridgeData. rewrite G, R. simpl.
  rewrite get_set_same. auto.
Qed.

(** X19.  When every line of the bridge output that parses passes the
    checks, the relay is the line splitter followed by dropping the lines
    that do not parse: those lines are written in order, their
    identifiers wait for the write callbacks, and the unfinished line
    stays in the buffer.  Lines of one chunk that carry the same
    identifier are all written, since an identifier is recorded only by
    the write callback. *)
Theorem relay_passes_every_valid_line :
  forall s bridge buffer data,
    JSMap.get bridge (bridgeOutputBuffer s) = Some buffer ->
    (forall l, In l (fst (onData buffer data)) -> parses parse l = true ->
               accepted parse (responsesSent s) l = true) ->
    let s' := step parse s (BridgeData bridge data) in
    stdout s' =
      stdout s ++ filter (parses parse) (fst (onData buffer data)) /\
    unacknowledged s' =
      unacknowledged s ++
      map (idOf parse) (filter (parses parse) (fst (onData buffer data))) /\
    JSMap.get bridge (bridgeOutputBuffer s') = Some (snd (onData buffer data)).
Proof.
  intros s bridge buffer data G H s'.
  destruct (onData buffer data) as [lines rest] eqn:E. cbn [fst snd] in *.
  apply (onBridgeData_eq bridge data s buffer G).
  apply relayResponses_all; assumption.
Qed.

(** X20.  A line that parses but fails a check (it is no response, or
    its identifier has been acknowledged before) ends the listener: the
    valid lines before it are written, and the complete lines behind it
    are not looked at; they stay in the buffer until the bridge writes
    again. *)
Theorem rejected_line_holds_back_the_lines_behind_it :
  forall s bridge buffer data pre bad post,
    JSMap.get bridge (bridgeOutputBuffer s) = Some buffer ->
    fst (onData buffer data) = pre ++ bad :: post ->
    (forall l, In l pre -> parses parse l = true ->
               accepted parse (responsesSent s) l = true) ->
    parses parse bad = true ->
    accepted parse (responsesSent s) bad = false ->
    let s' := step parse s (BridgeData bridge data) in
    stdout s' = stdout s ++ filter (parses parse) pre /\
    JSMap.get bridge (bridgeOutputBuffer s') =
      Some (unsplit post (snd (onData buffer data))).
Proof.
  intros s bridge buffer data pre bad post G E H B1 B2 s'.
  destruct (onData buffer data) as [lines rest] eqn:D. cbn [fst snd] in *.
  subst lines.
  destruct (onBridgeData_eq bridge data s buffer G
              (filter (parses parse) pre)
              (map (idOf parse) (filter (parses parse) pre))
              (unsplit post rest)) as (A & _ & C).
  - apply relayResponses_stall with (bad := bad); auto.
  - split; [exact A | exact C].
Qed.

Lemma relayRequests_valid : forall fuel buffer lines rest,
  relayRequests parse fuel buffer = (lines, rest) ->
  Forall (isRequestLine parse) lines.
Proof.
  induction fuel as [|fuel IH]; intros buffer lines rest E; simpl in E.
  - injection E as <- <-. constructor.
  - destruct (indexOf newline buffer) as [i|];
      [|injection E as <- <-; constructor].
    destruct (parse (slice 0 i buffer)) as [parsed|] eqn:P;
      [|eapply IH; eauto].
    destruct (validRequest parsed) as [[|]|] eqn:V.
    + destruct (relayRequests parse fuel (sliceFrom (i + 1) buffer))
        as [ls r] eqn:R.
      injection E as <- <-. constructor; [|eapply IH; eauto].
      exists parsed. auto.
    + injection E as <- <-. constructor.
    + eapply IH; eauto.
Qed.

Lemma listen_valid data listener :
  Forall (fun x => isRequestLine parse (snd x)) (snd (listen parse data listener)).
Proof.
  destruct listener as [bridge buffer]. unfold listen.
  destruct (relayRequests parse _ (buffer ++ data)) as [lines rest] eqn:R.
  simpl. apply relayRequests_valid in R.
  rewrite Forall_map. exact R.
Qed.

Lemma step_bridgeStdin s e :
  Forall (fun x => isRequestLine parse (snd x)) (bridgeStdin s) ->
  Forall (fun x => isRequestLine parse (snd x)) (bridgeStdin (step parse s e)).
Proof.
  intros H. destruct e as [bridge data|data|err|bridge signal|]; simpl.
  - unfold onBridgeData.
    destruct (JSMap.get bridge (bridgeOutputBuffer s)); [|exact H].
    destruct (relayResponses parse _ _ _) as [[lines ids] rest]. exact H.
  - apply Forall_app. split; [exact H|].
    apply Forall_concat. rewrite Forall_map, Forall_map.
    apply Forall_forall. intros x _. apply listen_valid.
  - unfold onWritten. destruct (unacknowledged s); exact H.
  - destruct (isRunning bridge s); [destruct signal|]; exact H.
  - destruct (timers s); exact H.
Qed.

(** X21.  Every line written to the standard input of a bridge parses
    to a value whose "jsonrpc" and "method" are truthy. *)
Theorem bridge_receives_only_requests :
  forall events,
    Forall (fun x => isRequestLine parse (snd x))
      (bridgeStdin (run parse main events)).
Proof.
  intros events.
  assert (G : forall s,
            Forall (fun x => isRequestLine parse (snd x)) (bridgeStdin s) ->
            Forall (fun x => isRequestLine parse (snd x))
              (bridgeStdin (run parse s events))).
  { induction events as [|e events IH]; intros s H; simpl; [exact H|].
    apply IH. now apply step_bridgeStdin. }
  apply G. constructor.
Qed.

Lemma started_next s :
  0 <= nextPid s ->
  map Z.of_nat (seq 0 (Z.to_nat (nextPid s + 1))) = started s ++ [nextPid s].
Proof.
  intros H. unfold started.
  replace (Z.to_nat (nextPid s + 1)) with (S (Z.to_nat (nextPid s))) by lia.
  rewrite seq_S, map_app. simpl. f_equal. f_equal. lia.
Qed.

Lemma listen_bridge data x : fst (fst (listen parse data x)) = fst x.
Proof.
  destruct x as [bridge buffer]. unfold listen.
  destruct (relayRequests parse (S (String.length (buffer ++ data)))
              (buffer ++ data)) as [lines rest].
  reflexivity.
Qed.

Lemma listen_fst data (l : list (Pid * string)) :
  map fst (map fst (map (listen parse data) l)) = map fst l.
Proof.
  induction l as [|x l IH]; cbn [map]; [reflexivity|].
  now rewrite listen_bridge, IH.
Qed.

(** The listeners of [process.stdin] are those of the bridges ever started,
    and [bridgeProcess] is the first bridge. *)
Lemma step_listeners s e :
  map fst (mcpInputBuffer s) = started s /\ 0 <= nextPid s /\
  bridgeProcess s = 0 ->
  map fst (mcpInputBuffer (step parse s e)) = started (step parse s e) /\
  0 <= nextPid (step parse s e) /\
  bridgeProcess (step parse s e) = 0.
Proof.
  intros (A & B & C). destruct e as [bridge data|data|err|bridge signal|]; simpl.
  - unfold onBridgeData.
    destruct (JSMap.get bridge (bridgeOutputBuffer s)); [|auto].
    destruct (relayResponses parse _ _ _) as [[lines ids] rest]. auto.
  - unfold onStdinData, started. simpl. rewrite listen_fst. auto.
  - unfold onWritten. destruct (unacknowledged s); auto.
  - destruct (isRunning bridge s); [destruct signal|]; auto.
  - destruct (timers s); [auto|]. unfold startBridge, started. simpl.
    rewrite map_app, A. simpl. rewrite started_next by exact B.
    repeat split; [lia | exact C].
Qed.

Lemma run_listeners events : forall s,
  map fst (mcpInputBuffer s) = started s /\ 0 <= nextPid s /\
  bridgeProcess s = 0 ->
  map fst (mcpInputBuffer (run parse s events)) = started (run parse s events) /\
  0 <= nextPid (run parse s events) /\
  bridgeProcess (run parse s events) = 0.
Proof.
  induction events as [|e events IH]; intros s H; simpl; [exact H|].
  apply IH. now apply step_listeners.
Qed.

Lemma main_listeners :
  map fst (mcpInputBuffer main) = started main /\ 0 <= nextPid main /\
  bridgeProcess main = 0.
Proof. repeat split. discriminate. Qed.

Lemma listen_one_line bridge line parsed :
  noNewline line ->
  parse line = Some parsed ->
  validRequest parsed = Some true ->
  listen parse (line ++ lf) (bridge, ""%string) =
  ((bridge, ""%string), [(bridge, line)]).
Proof.
  intros N P V. unfold listen, lf. simpl append.
  pose proof (indexOf_append_None newline line EmptyString N) as I.
  destruct (indexOf_split _ _ _ I) as (pre & post & Hs & Hn & Hp & Hq & Hl).
  destruct (prefix_unique _ _ _ _ _ N Hn Hs) as [<- <-].
  cbn [relayRequests]. rewrite I, Hp, Hq, P, V.
  destruct (String.length (line ++ String newline "")) eqn:L.
  - rewrite length_append in L. simpl in L. lia.
  - reflexivity.
Qed.

Lemma listen_all line parsed (l : list (Pid * string)) :
  noNewline line ->
  parse line = Some parsed ->
  validRequest parsed = Some true ->
  Forall (fun x => snd x = ""%string) l ->
  map fst (map (listen parse (line ++ lf)) l) = l /\
  List.concat (map snd (map (listen parse (line ++ lf)) l)) =
  map (fun bridge => (bridge, line)) (map fst l).
Proof.
  intros N P V. induction 1 as [|[bridge buffer] l Hb Hl IH];
    [split; reflexivity|].
  cbn [snd] in Hb. subst buffer. cbn [map].
  rewrite (listen_one_line bridge line parsed N P V).
  cbn [fst snd List.concat]. destruct IH as [-> ->]. split; reflexivity.
Qed.

(** X22.  Every call of startBridge adds a 'data' listener to
    process.stdin, and none is ever removed: a request line that arrives
    while the buffers of the listeners are empty is handed to
    [bridge.stdin.write] once for every bridge ever started, in the order
    in which they were started, whether the bridge still runs or not. *)
Theorem request_goes_to_every_bridge_ever_started :
  forall events line parsed,
    let s := run parse main events in
    noNewline line ->
    parse line = Some parsed ->
    validRequest parsed = Some true ->
    Forall (fun x => snd x = ""%string) (mcpInputBuffer s) ->
    bridgeStdin (step parse s (StdinData (line ++ lf))) =
      bridgeStdin s ++ map (fun bridge => (bridge, line)) (started s) /\
    mcpInputBuffer (step parse s (StdinData (line ++ lf))) = mcpInputBuffer s.
Proof.
  intros events line parsed s N P V E.
  destruct (run_listeners events main main_listeners) as (A & _ & _).
  fold s in A.
  destruct (listen_all line parsed (mcpInputBuffer s) N P V E) as [B C].
  simpl. unfold onStdinData. simpl. rewrite B, C, A. auto.
Qed.

(** X23.  [bridgeProcess] is assigned once: once the first bridge has
    exited, cleanup still signals that first bridge, a process that is
    not running, so a bridge started by a restart is never signalled. *)
Theorem cleanup_signals_the_first_bridge :
  forall events,
    let s := run parse main events in
    isRunning (bridgeProcess main) s = false ->
    cleanup s = bridgeProcess main /\ isRunning (cleanup s) s = false.
Proof.
  intros events s H.
  destruct (run_listeners events main main_listeners) as (_ & _ & C).
  fold s in C. unfold cleanup. rewrite C. auto.
Qed.

End Parser.

Lemma relay_passes_every_valid_line_witness :
  stdout
    (step parseSample main (BridgeData 0 ("r1" ++ lf ++ "r2" ++ lf))) =
    stdout main ++
    filter (parses parseSample)
      (fst (onData "" ("r1" ++ lf ++ "r2" ++ lf))) /\
  unacknowledged
    (step parseSample main (BridgeData 0 ("r1" ++ lf ++ "r2" ++ lf))) =
    unacknowledged main ++
    map (idOf parseSample)
      (filter (parses parseSample)
         (fst (onData "" ("r1" ++ lf ++ "r2" ++ lf)))) /\
  JSMap.get 0
    (bridgeOutputBuffer
       (step parseSample main (BridgeData 0 ("r1" ++ lf ++ "r2" ++ lf)))) =
    Some (snd (onData "" ("r1" ++ lf ++ "r2" ++ lf))).
Proof.
  apply (relay_passes_every_valid_line parseSample main 0 ""
           ("r1" ++ lf ++ "r2" ++ lf)).
  - reflexivity.
  - intros l H _. vm_compute in H.
    destruct H as [<-|[<-|[]]]; reflexivity.
Defined.

Lemma rejected_line_holds_back_the_lines_behind_it_witness :
  stdout
    (step parseSample main
       (BridgeData 0 ("r1" ++ lf ++ "note" ++ lf ++ "r2" ++ lf))) =
    stdout main ++ filter (parses parseSample) ["r1"%string] /\
  JSMap.get 0
    (bridgeOutputBuffer
       (step parseSample main
          (BridgeData 0 ("r1" ++ lf ++ "note" ++ lf ++ "r2" ++ lf)))) =
    Some (unsplit ["r2"%string]
            (snd (onData "" ("r1" ++ lf ++ "note" ++ lf ++ "r2" ++ lf)))).
Proof.
  apply (rejected_line_holds_back_the_lines_behind_it parseSample main 0 ""
           ("r1" ++ lf ++ "note" ++ lf ++ "r2" ++ lf)
           ["r1"%string] "note" ["r2"%string]).
  - reflexivity.
  - reflexivity.
  - intros l [<-|[]] _. reflexivity.
  - reflexivity.
  - reflexivity.
Defined.

Lemma request_goes_to_every_bridge_ever_started_witness :
  bridgeStdin
    (step parseSample (run parseSample main restarted)
       (StdinData ("call" ++ lf))) =
    bridgeStdin (run parseSample main restarted) ++
    map (fun bridge => (bridge, "call"%string))
      (started (run parseSample main restarted)) /\
  mcpInputBuffer
    (step parseSample (run parseSample main restarted)
       (StdinData ("call" ++ lf))) =
    mcpInputBuffer (run parseSample main restarted).
Proof.
  apply (request_goes_to_every_bridge_ever_started parseSample restarted
           "call"
           (JS.Obj [("jsonrpc", JS.Str "2.0"); ("id", JS.Num 3);
                    ("method", JS.Str "tools/list")]%string)).
  - reflexivity.
  - reflexivity.
  - reflexivity.
  - repeat constructor.
Defined.

Lemma cleanup_signals_the_first_bridge_witness :
  cleanup (run parseSample main restarted) = bridgeProcess main /\
  isRunning (cleanup (run parseSample main restarted))
    (run parseSample main restarted) = false.
Proof.
  apply (cleanup_signals_the_first_bridge parseSample restarted). reflexivity.
Defined.

End ServiceFacts.

(** ** bridge.js: the liveness sweep and [createServer] *)

Module BridgeLivenessFacts.
Import BridgeLiveness.

Lemma step_keeps_silent ws s e :
  silent ws e = true ->
  In (ws, false) (clients s) ->
  In (ws, false) (clients (step s e)).
Proof.
  intros Q H. destruct e as [ws'|ws'|ws'|]; simpl in *.
  - destruct (isClient ws' s); [exact H|]. simpl. apply in_or_app. now left.
  - apply in_map_iff. exists (ws, false). split; [|exact H].
    simpl. apply negb_true_iff in Q. rewrite Nat.eqb_sym in Q. now rewrite Q.
  - apply filter_In. split; [exact H|]. simpl.
    apply negb_true_iff in Q. rewrite Nat.eqb_sym in Q. now rewrite Q.
  - apply in_map_iff. exists (ws, false). auto.
Qed.

Lemma run_keeps_silent ws events : forall s,
  forallb (silent ws) events = true ->
  In (ws, false) (clients s) ->
  In (ws, false) (clients (run s events)).
Proof.
  induction events as [|e events IH]; intros s Q H; simpl in *; [exact H|].
  apply andb_true_iff in Q. destruct Q as [Q1 Q2].
  apply IH; [exact Q2|]. now apply step_keeps_silent.
Qed.

Lemma run_app s a b : run s (a ++ b) = run (run s a) b.
Proof. unfold run. apply fold_left_app. Qed.

(** X24.  A client that gives no sign of life is terminated within two
    sweeps: if a client is connected when a sweep runs, and neither a pong
    from it nor its close arrives before the next sweep, that next sweep
    at the latest calls terminate on it, whatever the other clients do in
    between. *)
Theorem silent_client_is_terminated_at_the_second_sweep :
  forall s ws quiet,
    isClient ws s = true ->
    forallb (silent ws) quiet = true ->
    In ws (terminated (run s ([Sweep] ++ quiet ++ [Sweep]))).
Proof.
  intros s ws quiet C Q.
  rewrite !run_app.
  assert (H : In (ws, false) (clients (run s [Sweep]))).
  { simpl. unfold isClient in C. apply existsb_exists in C.
    destruct C as [[w b] [Hin Hw]]. simpl in Hw. apply Nat.eqb_eq in Hw.
    subst w. apply in_map_iff. exists (ws, b). auto. }
  apply (run_keeps_silent ws quiet _ Q) in H.
  simpl. apply in_or_app. right.
  apply in_map_iff. exists (ws, false). split; [reflexivity|].
  apply filter_In. auto.
Qed.

Lemma step_keeps_alive ws s e :
  isSweep e = false ->
  (forall b, In (ws, b) (clients s) -> b = true) ->
  (forall b, In (ws, b) (clients (step s e)) -> b = true) /\
  terminated (step s e) = terminated s.
Proof.
  intros Q H. destruct e as [ws'|ws'|ws'|]; simpl in *; try discriminate.
  - destruct (isClient ws' s); [auto|]. simpl. split; [|reflexivity].
    intros b Hin. apply in_app_or in Hin. destruct Hin as [Hin|[Hin|[]]].
    + eauto.
    + now injection Hin as _ <-.
  - split; [|reflexivity]. intros b Hin. apply in_map_iff in Hin.
    destruct Hin as [[w b'] [E Hin]]. simpl in E.
    destruct (Nat.eqb w ws'); injection E as -> ->; eauto.
  - split; [|reflexivity]. intros b Hin. apply filter_In in Hin.
    destruct Hin as [Hin _]. eauto.
Qed.

Lemma run_keeps_alive ws events : forall s,
  forallb (fun e => negb (isSweep e)) events = true ->
  (forall b, In (ws, b) (clients s) -> b = true) ->
  (forall b, In (ws, b) (clients (run s events)) -> b = true) /\
  terminated (run s events) = terminated s.
Proof.
  induction events as [|e events IH]; intros s Q H; simpl in *; [auto|].
  apply andb_true_iff in Q. destruct Q as [Q1 Q2].
  apply negb_true_iff in Q1.
  destruct (step_keeps_alive ws s e Q1 H) as [A B].
  destruct (IH (step s e) Q2 A) as [C D]. split; [exact C | congruence].
Qed.

(** X25.  A pong protects a client until the next sweep: the first sweep
    after a pong from a client does not terminate that client, whatever
    connections, pongs and closes come in between. *)
Theorem pong_protects_until_the_next_sweep :
  forall s ws events,
    forallb (fun e => negb (isSweep e)) events = true ->
    exists now,
      terminated (run s ([WsPong ws] ++ events ++ [Sweep])) =
        terminated s ++ now /\
      ~ In ws now.
Proof.
  intros s ws events Q. rewrite !run_app.
  assert (H : forall b, In (ws, b) (clients (run s [WsPong ws])) -> b = true).
  { simpl. intros b Hin. apply in_map_iff in Hin.
    destruct Hin as [[w b'] [E Hin]]. simpl in E.
    destruct (Nat.eqb w ws) eqn:W.
    - now injection E as _ <-.
    - injection E as -> _. now rewrite Nat.eqb_refl in W. }
  destruct (run_keeps_alive ws events _ Q H) as [A B].
  set (s1 := run (run s [WsPong ws]) events) in *.
  exists (map fst (filter (fun c => negb (snd c)) (clients s1))).
  split.
  - simpl. now rewrite B.
  - intros Hin. apply in_map_iff in Hin. destruct Hin as [[w b] [E Hin]].
    simpl in E. subst w. apply filter_In in Hin. destruct Hin as [Hin Hb].
    rewrite (A b Hin) in Hb. discriminate.
Qed.

Lemma silent_client_is_terminated_at_the_second_sweep_witness :
  In 1%nat
    (terminated
       (run (run initialState answersOnce)
          ([Sweep] ++ [WsConnection 2%nat; WsPong 2%nat] ++ [Sweep]))).
Proof.
  apply (silent_client_is_terminated_at_the_second_sweep
           (run initialState answersOnce) 1%nat
           [WsConnection 2%nat; WsPong 2%nat]); reflexivity.
Defined.

Lemma pong_protects_until_the_next_sweep_witness :
  exists now,
    terminated
      (run (run initialState [WsConnection 1%nat; Sweep])
         ([WsPong 1%nat] ++ [WsConnection 2%nat] ++ [Sweep])) =
      terminated (run initialState [WsConnection 1%nat; Sweep]) ++ now /\
    ~ In 1%nat now.
Proof.
  apply (pong_protects_until_the_next_sweep
           (run initialState [WsConnection 1%nat; Sweep]) 1%nat
           [WsConnection 2%nat]).
  reflexivity.
Defined.

End BridgeLivenessFacts.

Module BridgePortsFacts.
Import BridgePorts.

Section Port.
Variable WS_PORT : Z.

Lemma nondecreasing_snoc l x :
  nondecreasing l -> Forall (fun p => p <= x) l -> nondecreasing (l ++ [x]).
Proof.
  induction l as [|a l IH]; intros N F; simpl; [exact I|].
  pose proof (Forall_inv F) as Fa. pose proof (Forall_inv_tail F) as Fl.
  destruct l as [|b l]; simpl in *; [split; [exact Fa | exact I]|].
  destruct N as [N1 N2]. split; [exact N1|]. now apply IH.
Qed.

Lemma Advancing_createServer outcome s :
  Advancing WS_PORT s -> Advancing WS_PORT (createServer WS_PORT outcome s).
Proof.
  unfold Advancing, MAX_PORT_ATTEMPTS. intros (A & B & C).
  assert (S1 : nondecreasing (tried s ++ [WS_PORT + portAttempts s])).
  { apply nondecreasing_snoc; [exact C|].
    eapply Forall_impl; [|exact B]. simpl. intros p Hp. lia. }
  assert (S2 : forall a, portAttempts s <= a ->
            Forall (fun p => WS_PORT <= p <= WS_PORT + a)
              (tried s ++ [WS_PORT + portAttempts s])).
  { intros a Ha. apply Forall_app. split.
    - eapply Forall_impl; [|exact B]. simpl. intros p Hp. lia.
    - constructor; [lia | constructor]. }
  unfold createServer, MAX_PORT_ATTEMPTS. destruct outcome.
  - simpl. repeat split; try lia; auto. apply S2. lia.
  - destruct (portAttempts s <? 10) eqn:E; simpl.
    + apply Z.ltb_lt in E. repeat split; try lia; auto. apply S2. lia.
    + repeat split; try lia; auto. apply S2. lia.
  - destruct (10 <=? portAttempts s); simpl;
      (repeat split; try lia; auto; apply S2; lia).
Qed.

Lemma Advancing_run outcomes : Advancing WS_PORT (run WS_PORT outcomes).
Proof.
  assert (I0 : Advancing WS_PORT initialState).
  { unfold Advancing, MAX_PORT_ATTEMPTS. simpl.
    repeat split; try lia. constructor. }
  destruct outcomes as [|first rest]; [exact I0|]. simpl.
  assert (G : forall s, Advancing WS_PORT s ->
            Advancing WS_PORT (fold_left (step WS_PORT) rest s)).
  { induction rest as [|o rest IH]; intros s H; simpl; [exact H|].
    apply IH. unfold step. destruct (retry s); [|exact H].
    now apply Advancing_createServer. }
  apply G. now apply Advancing_createServer.
Qed.

(** X26.  The older bridge only moves up: whatever the constructor does
    at each call of createServer, [portAttempts] stays within 0 and 10,
    every port tried lies within WS_PORT and WS_PORT + 10, and the ports
    tried never decrease; [portAttempts] is never reset, so the bridge
    does not return to a port it has moved past. *)
Theorem legacy_bridge_only_moves_up :
  forall outcomes,
    let s := run WS_PORT outcomes in
    0 <= portAttempts s <= MAX_PORT_ATTEMPTS /\
    Forall (fun p => WS_PORT <= p <= WS_PORT + MAX_PORT_ATTEMPTS) (tried s) /\
    nondecreasing (tried s).
Proof.
  intros outcomes s. destruct (Advancing_run outcomes) as (A & B & C).
  fold s in A, B, C. split; [exact A|]. split; [|exact C].
  eapply Forall_impl; [|exact B]. simpl. intros p Hp. lia.
Qed.

End Port.
End BridgePortsFacts.

(** ** auto_port_bridge.js: the close of a socket that was replaced *)

Module StalePeerFacts.
Import AutoPortBridge JSMapFacts AutoPortBridgeFacts.
Import Scenarios MoreScenarios.

Lemma readyState_setReadyState_other ws live r s :
  ws <> live ->
  readyState live (setReadyState ws r s) = readyState live s.
Proof.
  intros N. unfold readyState, setReadyState.
  destruct s as [? ? ? ? ? cl ? ? ?]; simpl.
  induction cl as [|[w x] cl IH]; simpl; [reflexivity|].
  destruct (Nat.eqb w ws) eqn:E; simpl.
  - apply Nat.eqb_eq in E. subst w.
    replace (Nat.eqb ws live) with false
      by (symmetry; now apply Nat.eqb_neq).
    exact IH.
  - destruct (Nat.eqb w live); [reflexivity | exact IH].
Qed.

(** X27.  The 'close' listener does not look at which socket closed: when a
    socket that is not the current connection closes (a peer that was
    replaced and left open), the reference to the live peer is cleared
    although that peer stays open, every pending request is rejected with
    'WebSocket connection closed', and the next tools/call is refused with
    'Not connected to Obsidian plugin'. *)
Theorem close_of_a_replaced_peer_disconnects_the_live_one :
  forall events ws live m,
    let s := run initialState events in
    obsidianConnection s = Some live ->
    ws <> live ->
    readyState ws s = Some OPEN ->
    JS.prop m "method" = Some (JS.Str "tools/call") ->
    let s1 := step s (WsClose ws) in
    readyState live s1 = Some OPEN /\
    obsidianConnection s1 = None /\
    pendingRequests s1 = [] /\
    stdout s1 =
      stdout s ++
      map (fun e => errorFrame (callerId (awaiting (snd e)))
                      "WebSocket connection closed") (pendingRequests s) /\
    stdout (step s1 (Stdin m)) =
      stdout s1 ++
      [errorFrame (callerId m) "Not connected to Obsidian plugin"].
Proof.
  intros events ws live m s Hc Hne Hopen Hm s1.
  pose proof (Invariant_reachable events) as Hinv. fold s in Hinv.
  assert (E : s1 = set_clients (clients (setReadyState ws CLOSED s)) (onClose s)).
  { unfold s1, step. rewrite Hopen. cbn [isClosed].
    now apply onClose_clients_irrelevant. }
  assert (L : readyState live s1 = Some OPEN).
  { rewrite E, onClose_eq by assumption.
    change (readyState live (setReadyState ws CLOSED s) = Some OPEN).
    rewrite readyState_setReadyState_other by assumption.
    exact (inv_connection s Hinv live Hc). }
  assert (C : obsidianConnection s1 = None)
    by (rewrite E, onClose_eq by assumption; reflexivity).
  split; [exact L|]. split; [exact C|].
  split; [rewrite E, onClose_eq by assumption; reflexivity|].
  split; [rewrite E, onClose_eq by assumption; reflexivity|].
  assert (R : isRequest m = true)
    by (destruct m; try discriminate; reflexivity).
  unfold step, handleMcpRequest, processRequest. rewrite Hm, C.
  cbn [methodIs String.eqb Ascii.eqb Bool.eqb].
  now rewrite finish_thrown.
Qed.

Lemma close_of_a_replaced_peer_disconnects_the_live_one_witness :
  readyState 2%nat (step (run initialState twoPeers) (WsClose 1%nat)) =
    Some OPEN /\
  obsidianConnection (step (run initialState twoPeers) (WsClose 1%nat)) =
    None /\
  pendingRequests (step (run initialState twoPeers) (WsClose 1%nat)) = [] /\
  stdout (step (run initialState twoPeers) (WsClose 1%nat)) =
    stdout (run initialState twoPeers) ++
    map (fun e => errorFrame (callerId (awaiting (snd e)))
                    "WebSocket connection closed")
      (pendingRequests (run initialState twoPeers)) /\
  stdout
    (step (step (run initialState twoPeers) (WsClose 1%nat))
       (Stdin (toolsCall (JS.Num 7)))) =
    stdout (step (run initialState twoPeers) (WsClose 1%nat)) ++
    [errorFrame (callerId (toolsCall (JS.Num 7)))
       "Not connected to Obsidian plugin"].
Proof.
  apply (close_of_a_replaced_peer_disconnects_the_live_one twoPeers 1%nat
           2%nat (toolsCall (JS.Num 7))).
  - reflexivity.
  - discriminate.
  - reflexivity.
  - reflexivity.
Defined.

End StalePeerFacts.
